(** * logspout-cloudwatch: destination resolution, batching and upload

    A shallow embedding of [cloudwatch.go] (package [cloudwatch]) and the
    properties of its three workers:

    - [Adapter]  : the [CloudwatchAdapter] methods [Stream] and
                   [renderEnvValue], and the helper [parseEnv];
    - [Batcher]  : [msgSize], [Append] and the body of
                   [CloudwatchBatcher.Start];
    - [Uploader] : the body of [CloudwatchUploader.Start], [getSequenceToken]
                   and [groupExists].

    The workers are goroutines joined by unbuffered channels.  Each one is
    modelled by the function its loop body computes on its own state, and a
    run is the fold of that function over the values the worker receives.

    The template engine, the docker daemon and the CloudWatch Logs service
    are interfaces ([TemplateEngine], [docker.Client],
    [cloudwatchlogs.Service]); the general theorems hold for every
    instance, and [Fixtures] has instances to run the code on concrete
    inputs.  [Resolver], [Accumulator] and [Dispatcher] hold the notions
    the properties are stated with. *)

From Stdlib Require Import ZArith String Ascii List Lia.
From stdpp Require Import gmap strings list fin_maps pretty.

Local Open Scope string_scope.
Local Open Scope Z_scope.

(** ** Go values *)

(** A Go call returning [(T, error)]: either the value or the error text. *)
Inductive result (A : Type) : Type :=
| Ok (a : A)
| Err (e : string).
Arguments Ok {A} a.
Arguments Err {A} e.

(** The functions of package [strings] the program calls. *)
Module strings.

Definition HasPrefix (s pre : string) : bool := String.prefix pre s.

Definition TrimPrefix (s pre : string) : string :=
  if HasPrefix s pre
  then String.substring (String.length pre)
                        (String.length s - String.length pre) s
  else s.

(** [strings.Split(s, sep)] for a separator of one byte: the fields
    between the occurrences of [sep]; always at least one field. *)
Fixpoint Split (s : string) (sep : ascii) : list string :=
  match s with
  | EmptyString => [EmptyString]
  | String c rest =>
      if Ascii.eqb c sep then EmptyString :: Split rest sep
      else match Split rest sep with
           | [] => [String c EmptyString]
           | f :: fs => String c f :: fs
           end
  end.

Definition Join (fields : list string) (sep : string) : string :=
  match fields with
  | [] => EmptyString
  | f :: fs => fold_left (fun acc x => acc +:+ sep +:+ x) fs f
  end.

(** [len(s) >= len(suffix) && s[len(s)-len(suffix):] == suffix] *)
Definition HasSuffix (s suffix : string) : bool :=
  (String.length suffix <=? String.length s)%nat
  && String.eqb (String.substring (String.length s - String.length suffix)
                                  (String.length suffix) s)
                suffix.

End strings.

(** The functions of package [strconv] the program calls. *)
Module strconv.

(** The value of a decimal digit. *)
Definition digit (c : ascii) : option Z :=
  let n := (Z.of_nat (nat_of_ascii c) - 48)%Z in
  if ((0 <=? n) && (n <=? 9))%Z then Some n else None.

Fixpoint digits (s : string) (acc : Z) : option Z :=
  match s with
  | EmptyString => Some acc
  | String c rest =>
      match digit c with
      | Some d => digits rest (acc * 10 + d)%Z
      | None => None
      end
  end.

(** [strconv.Atoi]: an optional sign and at least one decimal digit, with
    a value that fits the 64-bit [int]; anything else is an error (of
    syntax or of range). *)
Definition Atoi (s : string) : result Z :=
  match s with
  | EmptyString => Err "invalid syntax"
  | String c rest =>
      let neg := Ascii.eqb c "-" in
      let body := if Ascii.eqb c "-" || Ascii.eqb c "+" then rest else s in
      match body with
      | EmptyString => Err "invalid syntax"
      | _ =>
          match digits body 0 with
          | None => Err "invalid syntax"
          | Some n =>
              let v := (if neg then - n else n)%Z in
              if ((- 2 ^ 63 <=? v) && (v <? 2 ^ 63))%Z then Ok v
              else Err "value out of range"
          end
      end
  end.

(** [strconv.Itoa]: the decimal text of an integer. *)
Definition Itoa (n : Z) : string := pretty n.

End strconv.

(** The values of [go-dockerclient] and [logspout/router] the adapter reads. *)
Module docker.

Record Config : Type := mkConfig {
  Env : list string;
  Hostname : string;
  Labels : gmap string string
}.

Record Container : Type := mkContainer {
  ID : string;
  Name : string;
  Config_ : Config
}.

(** The docker client: [InspectContainer] is a remote call whose answer
    may change from one call to the next, so the daemon is a state [D]. *)
Class Client (D : Type) : Type := {
  InspectContainer : string -> D -> result Container * D
}.

End docker.

Module router.

Record Route : Type := mkRoute {
  Address : string;
  Options : gmap string string
}.

Record Message : Type := mkMessage {
  Container : docker.Container;
  Source : string;
  Data : string;
  Time : Z
}.

End router.

(** ** Render context and messages *)

Record RenderContext : Type := mkRenderContext {
  Host : string;                 (* container host name *)
  Env : gmap string string;      (* container ENV *)
  Labels : gmap string string;   (* container Labels *)
  Name : string;                 (* container Name *)
  ID : string;                   (* container ID *)
  LoggerHost : string            (* hostname of logging container *)
}.

(** Package [text/template], as far as [renderEnvValue] uses it:
    [template.New("template").Parse(text)] and [Execute] into a buffer,
    whose content is the rendered string. *)
Class TemplateEngine : Type := {
  template : Type;
  Parse : string -> result template;
  Execute : template -> RenderContext -> result string
}.

(** [CloudwatchMessage]; [Time] is [time.Time] as nanoseconds since the
    epoch (what [UnixNano] returns). *)
Record CloudwatchMessage : Type := mkCloudwatchMessage {
  Message : string;
  Group : string;
  Stream : string;
  Time : Z;
  Container : string
}.

(** ** The adapter (destination resolver) *)

Record CloudwatchAdapter : Type := mkCloudwatchAdapter {
  route : router.Route;
  osHost : string;
  groupnames : gmap string string;   (* maps container names to log groups *)
  streamnames : gmap string string   (* maps container names to log streams *)
}.

Module Adapter.

Definition LOG_GROUP : string := "LOG_GROUP".
Definition LOG_STREAM : string := "LOG_STREAM".

(** [parseEnv]: every line with at least one [=] binds the text before
    the first [=] to the text after it; later lines overwrite. *)
Definition parseEnv (envLines : list string) : gmap string string :=
  fold_left
    (fun (env : gmap string string) line =>
       let fields := strings.Split line "="%char in
       match fields with
       | key :: (_ :: _) as rest => <[key := strings.Join rest "="]> env
       | _ => env
       end)
    envLines ∅.

(** What the adapter tells the outside world while it handles a record. *)
Inductive effect : Type :=
| Inspected (c : docker.Container) (ok : bool)
    (* a.client.InspectContainer(m.Container.ID), and whether err == nil *)
| CacheWrite (name group stream : string)
    (* a.groupnames[name] = group; a.streamnames[name] = stream *)
| Send (msg : CloudwatchMessage).
    (* a.batcher.Input <- msg *)

Section WithProcess.

(** The process environment read by [os.Getenv], the template engine
    and the docker client. *)
Context (environ : gmap string string).
Context {engine : TemplateEngine}.
Context {D : Type} {client : docker.Client D}.

(** [os.Getenv]: the value, or the empty string when unset. *)
Definition Getenv (key : string) : string := default "" (environ !! key).

(** Lines 555-564 of [renderEnvValue]: the value of [finalVal] when the
    template is parsed. *)
Definition templateText (a : CloudwatchAdapter) (envKey : string)
    (context : RenderContext) (defaultVal : string) : string :=
  let finalVal := defaultVal in
  let finalVal :=
    let logspoutEnvVal := Getenv envKey in
    if bool_decide (logspoutEnvVal ≠ "") then logspoutEnvVal else finalVal in
  let finalVal :=
    match router.Options (route a) !! envKey with
    | Some routeOptionsVal => routeOptionsVal
    | None => finalVal
    end in
  let finalVal :=
    match Env context !! envKey with
    | Some containerEnvVal => containerEnvVal
    | None => finalVal
    end in
  finalVal.

(** Lines 565-579: parse and execute [finalVal].  The assignment
    [finalVal = renderedValue.String()] stands after the [return] of the
    error branch, so it never runs: when [Execute] succeeds the function
    returns [finalVal] as it was parsed. *)
Definition renderText (finalVal : string) (context : RenderContext)
    (defaultVal : string) : string :=
  match Parse finalVal with
  | Err _ => defaultVal
  | Ok tmpl =>
      match Execute tmpl context with
      | Err _ => defaultVal
      | Ok _renderedValue => finalVal
      end
  end.

Definition renderEnvValue (a : CloudwatchAdapter) (envKey : string)
    (context : RenderContext) (defaultVal : string) : string :=
  renderText (templateText a envKey context defaultVal) context defaultVal.

(** The render context [Stream] builds for a record. *)
Definition makeContext (a : CloudwatchAdapter) (m : router.Message)
    (containerData : docker.Container) : RenderContext :=
  let c := router.Container m in
  {| Env := parseEnv (docker.Env (docker.Config_ c));
     Labels := docker.Labels (docker.Config_ containerData);
     Name := strings.TrimPrefix (docker.Name c) "/";
     ID := docker.ID c;
     Host := docker.Hostname (docker.Config_ c);
     LoggerHost := osHost a |}.

Definition groupNameOf (a : CloudwatchAdapter) (context : RenderContext) : string :=
  renderEnvValue a LOG_GROUP context (osHost a).

Definition streamNameOf (a : CloudwatchAdapter) (context : RenderContext) : string :=
  renderEnvValue a LOG_STREAM context (Name context).

(** The earlier revision of [Stream] (lines 57-89), without the caches:
    the container is inspected and the names are rendered for every
    record. *)
Definition Stream_body_uncached (a : CloudwatchAdapter) (now : Z)
    (m : router.Message) (d : D) : D * list effect :=
  let c := router.Container m in
  match docker.InspectContainer (docker.ID c) d with
  | (Err _, d') => (d', [Inspected c false])
  | (Ok containerData, d') =>
      let context := makeContext a m containerData in
      let groupName := renderEnvValue a LOG_GROUP context (osHost a) in
      let streamName := renderEnvValue a LOG_STREAM context (Name context) in
      (d', [Inspected c true;
            Send {| Message := router.Data m;
                    Group := groupName;
                    Stream := streamName;
                    Time := now;
                    Container := Name context |}])
  end.

(** The body of the loop of [Stream] for one record [m], read at clock
    [now]: the adapter afterwards, the docker daemon afterwards and the
    effects in the order they happen. *)
Definition Stream_body (a : CloudwatchAdapter) (now : Z) (m : router.Message)
    (d : D) : CloudwatchAdapter * D * list effect :=
  let c := router.Container m in
  let groupName := default "" (groupnames a !! docker.Name c) in
  let streamName := default "" (streamnames a !! docker.Name c) in
  let send groupName streamName :=
    Send {| Message := router.Data m;
            Group := groupName;
            Stream := streamName;
            Time := now;
            Container := strings.TrimPrefix (docker.Name c) "/" |} in
  if bool_decide (streamName = "") || bool_decide (groupName = "") then
    match docker.InspectContainer (docker.ID c) d with
    | (Err _, d') => (a, d', [Inspected c false])
    | (Ok containerData, d') =>
        let context := makeContext a m containerData in
        let groupName := groupNameOf a context in
        let streamName := streamNameOf a context in
        ({| route := route a;
            osHost := osHost a;
            groupnames := <[docker.Name c := groupName]> (groupnames a);
            streamnames := <[docker.Name c := streamName]> (streamnames a) |},
         d',
         [Inspected c true;
          CacheWrite (docker.Name c) groupName streamName;
          send groupName streamName])
    end
  else (a, d, [send groupName streamName]).

(** [Stream]: the loop over the records of [logstream], each paired
    with the clock reading when it is handled. *)
Fixpoint Stream (a : CloudwatchAdapter) (logstream : list (Z * router.Message))
    (d : D) : CloudwatchAdapter * D * list effect :=
  match logstream with
  | [] => (a, d, [])
  | (now, m) :: rest =>
      let '(a1, d1, effs1) := Stream_body a now m d in
      let '(a2, d2, effs2) := Stream a1 rest d1 in
      (a2, d2, (effs1 ++ effs2)%list)
  end.

(** The loop of the earlier revision. *)
Fixpoint Stream_uncached (a : CloudwatchAdapter) (logstream : list (Z * router.Message))
    (d : D) : D * list effect :=
  match logstream with
  | [] => (d, [])
  | (now, m) :: rest =>
      let '(d1, effs1) := Stream_body_uncached a now m d in
      let '(d2, effs2) := Stream_uncached a rest d1 in
      (d2, (effs1 ++ effs2)%list)
  end.

End WithProcess.

End Adapter.

(** ** The batcher (accumulator) *)

(** Go's [int64]: the value of [z] after wrap-around to 64 bits, two's
    complement.  [int] has the same width on the 64-bit platforms the
    adapter is built for. *)
Definition int64 (z : Z) : Z := (z + 2 ^ 63) mod 2 ^ 64 - 2 ^ 63.

Record CloudwatchBatch : Type := mkCloudwatchBatch {
  Msgs : list CloudwatchMessage;
  Size : Z
}.

Module Batcher.

(** Rules for creating Cloudwatch Log batches. *)
Definition MAX_BATCH_SIZE : Z := 3000.   (* bytes *)
Definition MSG_OVERHEAD : Z := 26.       (* bytes *)

Definition msgSize (msg : CloudwatchMessage) : Z :=
  int64 (Z.of_nat (String.length (Message msg)) * 8 + MSG_OVERHEAD).

Definition NewCloudwatchBatch : CloudwatchBatch :=
  {| Msgs := []; Size := 0 |}.

Definition Append (b : CloudwatchBatch) (msg : CloudwatchMessage) : CloudwatchBatch :=
  {| Msgs := (Msgs b ++ [msg])%list;
     Size := int64 (Size b + msgSize msg) |}.

(** What the [select] of [Start] can receive. *)
Inductive event : Type :=
| Input (msg : CloudwatchMessage)   (* msg := <-b.Input *)
| Timer.                            (* <-b.timer *)

(** One round of the loop of [Start] on the map [b.batches]: the map
    afterwards and the batches sent on [b.output], in order.  The lookups
    after the first [if] always find the key, [default] only makes them
    total.  On [Timer] Go ranges over the map in an unspecified order;
    the batches are listed here in the order of [map_to_list], and
    nothing proved below depends on that order. *)
Definition Start_body (batches : gmap string CloudwatchBatch) (ev : event)
    : gmap string CloudwatchBatch * list CloudwatchBatch :=
  match ev with
  | Input msg =>
      let k := Container msg in
      let batches :=
        match batches !! k with
        | Some _ => batches
        | None => <[k := NewCloudwatchBatch]> batches
        end in
      let current := default NewCloudwatchBatch (batches !! k) in
      let '(batches, output) :=
        if MAX_BATCH_SIZE <? int64 (Size current + msgSize msg)
        then (<[k := NewCloudwatchBatch]> batches, [current])
        else (batches, []) in
      let thisBatch := default NewCloudwatchBatch (batches !! k) in
      (<[k := Append thisBatch msg]> batches, output)
  | Timer => (∅, (map_to_list batches).*2)
  end.

(** [Start] over the events it receives, from the map [batches]. *)
Fixpoint Start (batches : gmap string CloudwatchBatch) (events : list event)
    : gmap string CloudwatchBatch * list CloudwatchBatch :=
  match events with
  | [] => (batches, [])
  | ev :: rest =>
      let '(batches1, out1) := Start_body batches ev in
      let '(batches2, out2) := Start batches1 rest in
      (batches2, (out1 ++ out2)%list)
  end.

(** [RunTimer], up to its loop: the number of seconds between two
    ticks.  The route option [DELAY] replaces the default and the process
    variable [DELAY] replaces both; a text [strconv.Atoi] rejects gives the
    default. *)
Definition DEFAULT_DELAY : Z := 4.   (* seconds *)

Definition delayOf (route : router.Route) (environ : gmap string string) : Z :=
  let delayText := strconv.Itoa DEFAULT_DELAY in
  let delayText :=
    match router.Options route !! "DELAY" with
    | Some routeDelay => routeDelay
    | None => delayText
    end in
  let delayText :=
    let envDelay := Adapter.Getenv environ "DELAY" in
    if bool_decide (envDelay ≠ "") then envDelay else delayText in
  match strconv.Atoi delayText with
  | Ok delay => delay
  | Err _ => DEFAULT_DELAY
  end.

(** The argument of [time.Sleep] in the loop of [RunTimer]:
    [time.Duration(delay) * time.Second], in nanoseconds, an [int64].
    [time.Sleep] returns at once when it is zero or negative. *)
Definition sleepNanos (delay : Z) : Z := int64 (delay * 1000000000).

End Batcher.

(** ** The remote service *)

(** The requests and responses of [aws-sdk-go/service/cloudwatchlogs] the
    uploader uses.  Pointer fields that may be nil are options. *)
Module cloudwatchlogs.

Record LogGroup : Type := mkLogGroup { LogGroupName : string }.

Record LogStream : Type := mkLogStream {
  LogStreamName : string;
  UploadSequenceToken : option string
}.

Record InputLogEvent : Type := mkInputLogEvent {
  ev_Message : string;
  ev_Timestamp : Z
}.

Record PutLogEventsInput : Type := mkPutLogEventsInput {
  LogEvents : list InputLogEvent;
  put_LogGroupName : string;
  put_LogStreamName : string;
  SequenceToken : option string
}.

(** The service behind [u.svc], a state [S] changed by every call.
    [DescribeLogGroups] takes [LogGroupNamePrefix]; [DescribeLogStreams]
    takes [LogGroupName] and [LogStreamNamePrefix]; [PutLogEvents]
    answers [NextSequenceToken]. *)
Class Service (S : Type) : Type := {
  DescribeLogGroups : string -> S -> result (list LogGroup) * S;
  CreateLogGroup : string -> S -> result unit * S;
  DescribeLogStreams : string -> string -> S -> result (list LogStream) * S;
  CreateLogStream : string -> string -> S -> result unit * S;
  PutLogEvents : PutLogEventsInput -> S -> result (option string) * S
}.

End cloudwatchlogs.

(** ** The uploader (dispatcher) *)

Module Uploader.

Import cloudwatchlogs.

(** How one round of the loop of [Start] ends. *)
Inductive outcome : Type :=
| IndexOutOfRange
    (* batch.Msgs[0] on a batch without records: run-time panic *)
| TokenError (e : string)
    (* getSequenceToken failed: logged, continue *)
| PutError (params : PutLogEventsInput) (e : string)
    (* PutLogEvents failed: logged, continue *)
| Put200 (params : PutLogEventsInput) (NextSequenceToken : option string).

(** The request a round sent with [PutLogEvents], if it got that far. *)
Definition submitted (o : outcome) : option PutLogEventsInput :=
  match o with
  | PutError params _ | Put200 params _ => Some params
  | _ => None
  end.

(** [NewCloudwatchUploader] sets [debugSet] when the route has an option
    [DEBUG], whatever its value, or the process variable [DEBUG] is not
    empty. *)
Definition debugSetOf (route : router.Route) (environ : gmap string string) : bool :=
  let debugOption := bool_decide (is_Some (router.Options route !! "DEBUG")) in
  debugOption || bool_decide (Adapter.Getenv environ "DEBUG" ≠ "").

(** [log]: what [log.Print] receives, if anything; [text] is the result
    of [fmt.Sprintf(format, args...)]. *)
Definition log (debugSet : bool) (text : string) : option string :=
  if debugSet then
    let msg := text in
    let msg := "cloudwatch: " +:+ msg in
    let msg :=
      if negb (strings.HasSuffix msg (String "010" EmptyString))
      then msg +:+ String "010" EmptyString
      else msg in
    Some msg
  else None.

Section WithService.

Context {S : Type} {svc : Service S}.

(** A computation calling the service: [None] when the fuel of a
    recursive call ran out, otherwise the Go result and the service
    afterwards. *)
Definition Remote (A : Type) : Type := S -> option (result A * S).

Definition ret {A} (a : A) : Remote A := fun s => Some (Ok a, s).
Definition fail {A} (e : string) : Remote A := fun s => Some (Err e, s).
Definition call {A} (f : S -> result A * S) : Remote A := fun s => Some (f s).

(** [x, err := c; if err != nil { return nil, err }; k x] *)
Definition bind {A B} (c : Remote A) (k : A -> Remote B) : Remote B :=
  fun s =>
    match c s with
    | None => None
    | Some (Err e, s') => Some (Err e, s')
    | Some (Ok a, s') => k a s'
    end.

Local Notation "x <- c ;; k" := (bind c (fun x => k))
  (at level 100, c at next level, right associativity).

Definition groupExists (group : string) : Remote bool :=
  resp <- call (DescribeLogGroups group) ;;
  let count := length resp in
  if (1 <? count)%nat then (* too many matching groups *)
    fail (pretty count +:+ " groups match group " +:+ group +:+ "!")
  else if (count <? 1)%nat then ret false
  else ret true.

Definition createGroup (group : string) : Remote unit :=
  call (CreateLogGroup group).

Definition createStream (group stream : string) : Remote unit :=
  call (CreateLogStream group stream).

(** [getSequenceToken] calls itself after creating the stream; [fuel]
    bounds the depth of that recursion. *)
Fixpoint getSequenceToken (fuel : nat) (msg : CloudwatchMessage)
    : Remote (option string) :=
  match fuel with
  | O => fun _ => None
  | Datatypes.S fuel' =>
      let group := Group msg in
      let stream := Stream msg in
      groupExists <- groupExists group ;;
      _ <- (if groupExists : bool then ret tt else createGroup group) ;;
      resp <- call (DescribeLogStreams group stream) ;;
      let count := length resp in
      if (1 <? count)%nat then (* too many matching streams! *)
        fail (pretty count +:+ " streams match group " +:+ group
                +:+ ", stream " +:+ stream +:+ "!")
      else
        match resp with
        | [] => (* no matching streams - create one and retry *)
            _ <- createStream group stream ;;
            getSequenceToken fuel' msg
        | ls :: _ => ret (UploadSequenceToken ls)
        end
  end.

(** Lines 296-313 of [Start]: "fetch and cache the upload sequence
    token".  The token to submit with (or the error), and the map
    [u.tokens] afterwards. *)
Definition fetchToken (fuel : nat) (tokens : gmap string string)
    (msg : CloudwatchMessage) (s : S)
    : option (result (option string) * gmap string string * S) :=
  match tokens !! Container msg with
  | Some cachedToken => Some (Ok (Some cachedToken), tokens, s)
  | None =>
      match getSequenceToken fuel msg s with
      | None => None
      | Some (Err e, s') => Some (Err e, tokens, s')
      | Some (Ok awsToken, s') =>
          match awsToken with
          | Some t => Some (Ok (Some t), <[Container msg := t]> tokens, s')
          | None => Some (Ok None, tokens, s')
          end
      end
  end.

(** Lines 315-329: the request built from the batch. *)
Definition putParams (msg : CloudwatchMessage) (batch : CloudwatchBatch)
    (token : option string) : PutLogEventsInput :=
  {| LogEvents :=
       map (fun m => {| ev_Message := Message m;
                        ev_Timestamp := int64 (Z.quot (Time m) 1000000) |})
           (Msgs batch);
     put_LogGroupName := Group msg;
     put_LogStreamName := Stream msg;
     SequenceToken := token |}.

(** One round of the loop of [Start] for a received [batch]. *)
Definition Start_body (fuel : nat) (tokens : gmap string string)
    (batch : CloudwatchBatch) (s : S)
    : option (outcome * gmap string string * S) :=
  match Msgs batch with
  | [] => Some (IndexOutOfRange, tokens, s)
  | msg :: _ =>
      match fetchToken fuel tokens msg s with
      | None => None
      | Some (Err e, tokens1, s1) => Some (TokenError e, tokens1, s1)
      | Some (Ok token, tokens1, s1) =>
          let params := putParams msg batch token in
          match PutLogEvents params s1 with
          | (Err e, s2) => Some (PutError params e, tokens1, s2)
          | (Ok NextSequenceToken, s2) =>
              let tokens2 :=
                match NextSequenceToken with
                | Some next => <[Container msg := next]> tokens1
                | None => tokens1
                end in
              Some (Put200 params NextSequenceToken, tokens2, s2)
          end
      end
  end.

(** [Start] over the batches it receives; a panic ends the loop. *)
Fixpoint Start (fuel : nat) (tokens : gmap string string)
    (input : list CloudwatchBatch) (s : S)
    : option (list outcome * gmap string string * S) :=
  match input with
  | [] => Some ([], tokens, s)
  | batch :: rest =>
      match Start_body fuel tokens batch s with
      | None => None
      | Some (IndexOutOfRange, tokens1, s1) => Some ([IndexOutOfRange], tokens1, s1)
      | Some (o, tokens1, s1) =>
          match Start fuel tokens1 rest s1 with
          | None => None
          | Some (os, tokens2, s2) => Some (o :: os, tokens2, s2)
          end
      end
  end.

End WithService.

End Uploader.

(** ** Stand-ins for the external collaborators

    The template engine, the docker daemon and the log service are not part
    of the repository.  The theorems below are stated for every instance of
    their interfaces; the instances here make the code run on concrete
    inputs. *)

Module Fixtures.

Import cloudwatchlogs.

(** *** A template engine

    Literal text and actions of the form [{{.Field}}], the way
    [text/template] treats them: a missing [}}] is a parse error, a field
    the context does not have is an execution error. *)
Inductive piece : Type :=
| Text (s : string)
| Action (field : string).

Definition consPiece (p : piece) (r : result (list piece)) : result (list piece) :=
  match r with
  | Ok ps => Ok (p :: ps)
  | Err e => Err e
  end.

Definition snoc (s : string) (c : ascii) : string := s +:+ String c EmptyString.

Fixpoint scan (s : string) (inAction : bool) (acc : string) : result (list piece) :=
  match s with
  | EmptyString => if inAction then Err "unclosed action" else Ok [Text acc]
  | String c rest =>
      match rest with
      | String c' rest' =>
          if negb inAction && Ascii.eqb c "{" && Ascii.eqb c' "{" then
            consPiece (Text acc) (scan rest' true EmptyString)
          else if inAction && Ascii.eqb c "}" && Ascii.eqb c' "}" then
            match acc with
            | String "." field => consPiece (Action field) (scan rest' false EmptyString)
            | _ => Err "unexpected token in action"
            end
          else scan rest inAction (snoc acc c)
      | EmptyString => scan rest inAction (snoc acc c)
      end
  end.

Definition field (context : RenderContext) (name : string) : result string :=
  if bool_decide (name = "Host") then Ok (Host context)
  else if bool_decide (name = "Name") then Ok (Name context)
  else if bool_decide (name = "ID") then Ok (ID context)
  else if bool_decide (name = "LoggerHost") then Ok (LoggerHost context)
  else Err ("can't evaluate field " +:+ name).

Fixpoint render (ps : list piece) (context : RenderContext) : result string :=
  match ps with
  | [] => Ok EmptyString
  | p :: rest =>
      match (match p with Text s => Ok s | Action f => field context f end) with
      | Err e => Err e
      | Ok s =>
          match render rest context with
          | Err e => Err e
          | Ok s' => Ok (s +:+ s')
          end
      end
  end.

#[export] Instance fieldTemplates : TemplateEngine :=
  {| template := list piece;
     Parse text := scan text false EmptyString;
     Execute := render |}.

(** *** A docker daemon: the containers it knows, by ID. *)
#[export] Instance daemon : docker.Client (gmap string docker.Container) :=
  {| docker.InspectContainer id d :=
       match d !! id with
       | Some c => (Ok c, d)
       | None => (Err ("No such container: " +:+ id), d)
       end |}.

(** *** A scripted log service

    The service answers the calls with the responses of a script, one per
    call, whatever the request; it keeps the requests it received.  A
    response of the wrong kind, or none left, is an error of the call. *)
Inductive request : Type :=
| DescribeLogGroupsReq (prefix : string)
| CreateLogGroupReq (group : string)
| DescribeLogStreamsReq (group prefix : string)
| CreateLogStreamReq (group stream : string)
| PutLogEventsReq (params : PutLogEventsInput).

Inductive response : Type :=
| LogGroups (r : result (list LogGroup))
| LogGroupCreated (r : result unit)
| LogStreams (r : result (list LogStream))
| LogStreamCreated (r : result unit)
| EventsPut (r : result (option string)).

Record scripted : Type := mkScripted {
  pending : list response;
  calls : list request
}.

Definition answer {A} (req : request) (pick : response -> option (result A))
    (s : scripted) : result A * scripted :=
  match pending s with
  | [] => (Err "no response", {| pending := []; calls := (calls s ++ [req])%list |})
  | r :: rest =>
      (match pick r with Some a => a | None => Err "unexpected response" end,
       {| pending := rest; calls := (calls s ++ [req])%list |})
  end.

#[export] Instance script : Service scripted :=
  {| DescribeLogGroups prefix :=
       answer (DescribeLogGroupsReq prefix)
              (fun r => match r with LogGroups a => Some a | _ => None end);
     CreateLogGroup group :=
       answer (CreateLogGroupReq group)
              (fun r => match r with LogGroupCreated a => Some a | _ => None end);
     DescribeLogStreams group prefix :=
       answer (DescribeLogStreamsReq group prefix)
              (fun r => match r with LogStreams a => Some a | _ => None end);
     CreateLogStream group stream :=
       answer (CreateLogStreamReq group stream)
              (fun r => match r with LogStreamCreated a => Some a | _ => None end);
     PutLogEvents params :=
       answer (PutLogEventsReq params)
              (fun r => match r with EventsPut a => Some a | _ => None end) |}.

Definition isCreateLogStream (r : request) : bool :=
  match r with CreateLogStreamReq _ _ => true | _ => false end.

Definition isDescribeLogStreams (r : request) : bool :=
  match r with DescribeLogStreamsReq _ _ => true | _ => false end.

(** *** A log service kept in memory

    Groups and streams by name; the two [Describe] calls list the names
    that start with the requested prefix, as the service documents.  A
    stream accepts events only with its current token and then issues a
    new one. *)
Record logs : Type := mkLogs {
  groups : list string;
  streams : list (string * string * option string);
  issued : nat
}.

Definition inGroup (group : string) (st : string * string * option string) : bool :=
  bool_decide (st.1.1 = group).

Definition isStream (group stream : string) (st : string * string * option string) : bool :=
  bool_decide (st.1.1 = group) && bool_decide (st.1.2 = stream).

Definition describeLogGroups (prefix : string) (s : logs) : result (list LogGroup) * logs :=
  (Ok (map mkLogGroup (List.filter (fun g => strings.HasPrefix g prefix) (groups s))), s).

Definition createLogGroup (group : string) (s : logs) : result unit * logs :=
  if bool_decide (group ∈ groups s) then (Err "ResourceAlreadyExistsException", s)
  else (Ok tt, {| groups := (groups s ++ [group])%list;
                  streams := streams s; issued := issued s |}).

Definition describeLogStreams (group prefix : string) (s : logs)
    : result (list LogStream) * logs :=
  if bool_decide (group ∈ groups s) then
    (Ok (map (fun st => mkLogStream st.1.2 st.2)
             (List.filter (fun st => inGroup group st && strings.HasPrefix st.1.2 prefix)
                          (streams s))), s)
  else (Err "ResourceNotFoundException", s).

Definition createLogStream (group stream : string) (s : logs) : result unit * logs :=
  if negb (bool_decide (group ∈ groups s)) then (Err "ResourceNotFoundException", s)
  else if existsb (isStream group stream) (streams s)
  then (Err "ResourceAlreadyExistsException", s)
  else (Ok tt, {| groups := groups s;
                  streams := (streams s ++ [(group, stream, None)])%list;
                  issued := issued s |}).

Definition putLogEvents (params : PutLogEventsInput) (s : logs)
    : result (option string) * logs :=
  let group := put_LogGroupName params in
  let stream := put_LogStreamName params in
  match List.find (isStream group stream) (streams s) with
  | None => (Err "ResourceNotFoundException", s)
  | Some st =>
      if bool_decide (st.2 = SequenceToken params) then
        let next := pretty (issued s) in
        (Ok (Some next),
         {| groups := groups s;
            streams := map (fun st' => if isStream group stream st'
                                       then (group, stream, Some next) else st')
                           (streams s);
            issued := Datatypes.S (issued s) |})
      else (Err "InvalidSequenceTokenException", s)
  end.

#[export] Instance memory : Service logs :=
  {| DescribeLogGroups := describeLogGroups;
     CreateLogGroup := createLogGroup;
     DescribeLogStreams := describeLogStreams;
     CreateLogStream := createLogStream;
     PutLogEvents := putLogEvents |}.

(** *** A log service that forgets

The group always exists, no stream ever matches, and every creation
succeeds: the answers of a service on which created streams do not show
up in the listing. *)
#[export] Instance forgetful : Service unit :=
  {| DescribeLogGroups prefix s := (Ok [mkLogGroup prefix], s);
     CreateLogGroup _ s := (Ok tt, s);
     DescribeLogStreams _ _ s := (Ok [], s);
     CreateLogStream _ _ s := (Ok tt, s);
     PutLogEvents _ s := (Ok None, s) |}.

End Fixtures.

(** ** What the properties speak about *)

(** *** The resolver: lookups and cache writes of a run *)

Module Resolver.

Import Adapter.

(** The source of a record is the container it comes from; the caches
    of [Stream] are indexed by the container name. *)
Definition isLookup (name : string) (e : effect) : bool :=
  match e with
  | Inspected c _ => bool_decide (docker.Name c = name)
  | _ => false
  end.

Definition isLookupOk (name : string) (e : effect) : bool :=
  match e with
  | Inspected c true => bool_decide (docker.Name c = name)
  | _ => false
  end.

Definition isLookupFailed (name : string) (e : effect) : bool :=
  match e with
  | Inspected c false => bool_decide (docker.Name c = name)
  | _ => false
  end.

Definition isCacheWrite (name : string) (e : effect) : bool :=
  match e with
  | CacheWrite n _ _ => bool_decide (n = name)
  | _ => false
  end.

Definition count (p : effect -> bool) (effs : list effect) : nat :=
  length (List.filter p effs).

Definition lookups (name : string) := count (isLookup name).
Definition lookupsOk (name : string) := count (isLookupOk name).
Definition lookupsFailed (name : string) := count (isLookupFailed name).
Definition cacheWrites (name : string) := count (isCacheWrite name).

(** [Stream] takes a source for cached when both cached names are
    present and not empty (line 508). *)
Definition cached (a : CloudwatchAdapter) (name : string) : Prop :=
  default "" (groupnames a !! name) ≠ "" ∧ default "" (streamnames a !! name) ≠ "".

(** Every cache write for [name] among [effs] stores two names that are
    not empty. *)
Definition namesNonEmpty (name : string) (effs : list effect) : Prop :=
  forall group stream,
    In (CacheWrite name group stream) effs -> group ≠ "" ∧ stream ≠ "".

(** The records of [logstream] that come from the source [name]. *)
Definition from (name : string) (logstream : list (Z * router.Message))
    : list (Z * router.Message) :=
  List.filter (fun r => bool_decide (docker.Name (router.Container r.2) = name)) logstream.

(** The precedence of the specification: per-source environment
    override, then route option, then process environment variable, then
    the built-in default. *)
Definition firstPresent (override option variable : option string)
    (builtin : string) : string :=
  match override, option, variable with
  | Some v, _, _ => v
  | None, Some v, _ => v
  | None, None, Some v => v
  | None, None, None => builtin
  end.

(** A process environment variable counts as present when [os.Getenv]
    returns a value that is not empty. *)
Definition variable (environ : gmap string string) (key : string) : option string :=
  match environ !! key with
  | Some v => if bool_decide (v = "") then None else Some v
  | None => None
  end.

(** *** Concrete records *)

Definition adapter0 : CloudwatchAdapter :=
  {| route := {| router.Address := "us-east-1"; router.Options := ∅ |};
     osHost := "logger";
     groupnames := ∅;
     streamnames := ∅ |}.

(** A container that overrides the group with a template. *)
Definition web : docker.Container :=
  {| docker.ID := "c1";
     docker.Name := "/web";
     docker.Config_ :=
       {| docker.Env := ["PATH=/bin"; "LOG_GROUP={{.Name}}-logs"];
          docker.Hostname := "web-host";
          docker.Labels := ∅ |} |}.

(** A container that overrides the stream with the empty text. *)
Definition quiet : docker.Container :=
  {| docker.ID := "c2";
     docker.Name := "/quiet";
     docker.Config_ :=
       {| docker.Env := ["LOG_STREAM="];
          docker.Hostname := "quiet-host";
          docker.Labels := ∅ |} |}.

(** A container without overrides. *)
Definition plain : docker.Container :=
  {| docker.ID := "c3";
     docker.Name := "/plain";
     docker.Config_ :=
       {| docker.Env := ["PATH=/bin"];
          docker.Hostname := "plain-host";
          docker.Labels := ∅ |} |}.

Definition record (c : docker.Container) (data : string) : router.Message :=
  {| router.Container := c; router.Source := "stdout";
     router.Data := data; router.Time := 0 |}.

Definition webContext : RenderContext :=
  makeContext adapter0 (record web "hello") web.

(** What [Stream] does with the first record of [web]. *)
Definition webRun : list effect :=
  (Stream (engine := Fixtures.fieldTemplates) (client := Fixtures.daemon)
          ∅ adapter0 [(7, record web "hello")] {["c1" := web]}).2.

End Resolver.

Module ResolverRuns.

Import Adapter Resolver.

(** Three records of [plain], handled with a daemon that knows it. *)
Definition plainRun : list effect :=
  (Stream (engine := Fixtures.fieldTemplates) (client := Fixtures.daemon)
          ∅ adapter0
          [(0, record plain "one"); (1, record plain "two"); (2, record plain "three")]
          {["c3" := plain]}).2.

(** Two records of [plain], handled with a daemon that does not know it:
    both lookups fail. *)
Definition unknownRun : list effect :=
  (Stream (engine := Fixtures.fieldTemplates) (client := Fixtures.daemon)
          ∅ adapter0
          [(0, record plain "one"); (1, record plain "two")]
          ∅).2.

(** Two records of [quiet], whose stream name resolves to the empty
    text. *)
Definition quietRun : list effect :=
  (Stream (engine := Fixtures.fieldTemplates) (client := Fixtures.daemon)
          ∅ adapter0
          [(0, record quiet "one"); (1, record quiet "two")]
          {["c2" := quiet]}).2.

End ResolverRuns.

(** *** The accumulator: sizes of batches *)

(** The stream key of a batch is the container of its first record; the
    dispatcher reads it from [batch.Msgs[0]]. *)
Definition streamKey (batch : CloudwatchBatch) : option string :=
  Container <$> head (Msgs batch).

Module Accumulator.

Import Batcher.

(** The wire size of a record in the integers: payload length times the
    overhead factor, plus the per-record overhead. *)
Definition wireSize (msg : CloudwatchMessage) : Z :=
  Z.of_nat (String.length (Message msg)) * 8 + 26.

Definition totalSize (msgs : list CloudwatchMessage) : Z :=
  fold_right (fun m acc => wireSize m + acc) 0 msgs.

(** A payload short enough for its wire size to be far from the end of
    [int64]; every string a 64-bit process can hold is. *)
Definition fits (msg : CloudwatchMessage) : Prop := wireSize msg < 2 ^ 62.

Definition inputsFit (events : list event) : Prop :=
  forall msg, In (Input msg) events -> fits msg.

(** [Size] is the sum of the wire sizes of the records. *)
Definition sized (b : CloudwatchBatch) : Prop := Size b = totalSize (Msgs b).

(** [Size] is within the maximum, or the batch is one record that is
    itself over the maximum. *)
Definition bounded (b : CloudwatchBatch) : Prop :=
  Size b <= MAX_BATCH_SIZE
  \/ exists m, Msgs b = [m] /\ MAX_BATCH_SIZE < wireSize m.

(** The invariant of the map of open batches. *)
Definition openOk (batches : gmap string CloudwatchBatch) : Prop :=
  forall k b, batches !! k = Some b ->
    sized b /\ bounded b /\ Msgs b <> [] /\ Size b < 2 ^ 62.

(** The cumulative wire size of a sequence of records first exceeds the
    maximum at the record [c], which comes after the records [pre]. *)
Definition crossesAt (pre : list CloudwatchMessage) (c : CloudwatchMessage) : Prop :=
  totalSize pre <= MAX_BATCH_SIZE /\ MAX_BATCH_SIZE < totalSize pre + wireSize c.

(** Every open batch holds records of the container it is filed under. *)
Definition keyed (batches : gmap string CloudwatchBatch) : Prop :=
  forall k b, batches !! k = Some b -> forall m, In m (Msgs b) -> Container m = k.

(** The batch belongs to the stream [k]. *)
Definition ofStream (k : string) (b : CloudwatchBatch) : bool :=
  bool_decide (streamKey b = Some k).

(** The record comes from the container [k]. *)
Definition fromContainer (k : string) (m : CloudwatchMessage) : bool :=
  bool_decide (Container m = k).

(** A batch holding the records [msgs]. *)
Definition batchOf (msgs : list CloudwatchMessage) : CloudwatchBatch :=
  {| Msgs := msgs; Size := totalSize msgs |}.

(** A record with a payload of [n] bytes. *)
Definition payload (n : nat) : string := string_of_list_ascii (repeat "a"%char n).

Definition recordOf (container : string) (n : nat) : CloudwatchMessage :=
  {| Message := payload n; Group := "logger"; Stream := container;
     Time := 0; Container := container |}.

(** 247 bytes: wire size 2002.  372 bytes: wire size 3002, over the
    maximum on its own. *)
Definition medium : CloudwatchMessage := recordOf "web" 247.
Definition oversized : CloudwatchMessage := recordOf "web" 372.
Definition small : CloudwatchMessage := recordOf "web" 5.

(** Three records of [web] with a record of [db] in between. *)
Definition mixed : list CloudwatchMessage :=
  [medium; recordOf "db" 5; medium; small].

End Accumulator.

(** *** The dispatcher: scripts of the remote service *)

Module Dispatcher.

Import cloudwatchlogs Fixtures.

(** The token a round submitted with, if it submitted. *)
Definition submittedToken (o : Uploader.outcome) : option (option string) :=
  SequenceToken <$> Uploader.submitted o.

(** One pass of [getSequenceToken] in which the group exists and no
    stream matches, so that the stream is created: the responses, and
    the requests they answer. *)
Definition emptyRound (msg : CloudwatchMessage) : list response :=
  [LogGroups (Ok [mkLogGroup (Group msg)]); LogStreams (Ok []); LogStreamCreated (Ok tt)].

Definition emptyRoundCalls (msg : CloudwatchMessage) : list request :=
  [DescribeLogGroupsReq (Group msg);
   DescribeLogStreamsReq (Group msg) (Stream msg);
   CreateLogStreamReq (Group msg) (Stream msg)].

(** One pass in which the group exists and the streams [found] match. *)
Definition lastRound (msg : CloudwatchMessage) (found : list LogStream) : list response :=
  [LogGroups (Ok [mkLogGroup (Group msg)]); LogStreams (Ok found)].

Definition lastRoundCalls (msg : CloudwatchMessage) : list request :=
  [DescribeLogGroupsReq (Group msg); DescribeLogStreamsReq (Group msg) (Stream msg)].

Fixpoint times {A} (n : nat) (l : list A) : list A :=
  match n with
  | O => []
  | Datatypes.S n' => (l ++ times n' l)%list
  end.

Definition creations (s : scripted) : nat :=
  length (List.filter isCreateLogStream (calls s)).

Definition listings (s : scripted) : nat :=
  length (List.filter isDescribeLogStreams (calls s)).

(** *** Concrete batches and services *)

Definition webRecord : CloudwatchMessage :=
  {| Message := "hello"; Group := "app"; Stream := "web";
     Time := 1500000000000000000; Container := "web" |}.

Definition webBatch : CloudwatchBatch :=
  {| Msgs := [webRecord]; Size := 66 |}.

Definition webStream (token : option string) : LogStream :=
  {| LogStreamName := "web"; UploadSequenceToken := token |}.

(** The stream exists with token [tok0]; the submission fails. *)
Definition fetchThenFail : scripted :=
  {| pending := (lastRound webRecord [webStream (Some "tok0")]
                   ++ [EventsPut (Err "ThrottlingException")])%list;
     calls := [] |}.

(** The stream exists with token [tok0]; the submission answers [tok1]. *)
Definition fetchThenPut : scripted :=
  {| pending := (lastRound webRecord [webStream (Some "tok0")]
                   ++ [EventsPut (Ok (Some "tok1"))])%list;
     calls := [] |}.

(** The submission fails. *)
Definition putFails : scripted :=
  {| pending := [EventsPut (Err "ThrottlingException")]; calls := [] |}.

(** No stream matches twice in a row, then one does. *)
Definition twiceEmpty : scripted :=
  {| pending := (times 2 (emptyRound webRecord)
                   ++ lastRound webRecord [webStream None])%list;
     calls := [] |}.

(** A service without groups and streams. *)
Definition noLogs : logs := {| groups := []; streams := []; issued := 0 |}.

(** A service with the groups [app] and [app-staging]. *)
Definition twoGroups : logs :=
  {| groups := ["app"; "app-staging"];
     streams := [("app", "web", None)];
     issued := 0 |}.

End Dispatcher.

(** *** The flow of records through the accumulator *)

Module Flow.

Import Batcher Accumulator.

(** The records among the events, in arrival order. *)
Definition inputs (events : list event) : list CloudwatchMessage :=
  flat_map (fun ev => match ev with Input msg => [msg] | Timer => [] end) events.

(** The records of the open batch of the container [k], if it has one. *)
Definition held (k : string) (batches : gmap string CloudwatchBatch)
    : list CloudwatchMessage :=
  Msgs (default NewCloudwatchBatch (batches !! k)).

(** The records of the container [k] in the batches [outs], in the order
    the batches were sent. *)
Definition recordsOf (k : string) (outs : list CloudwatchBatch)
    : list CloudwatchMessage :=
  List.filter (fromContainer k) (flat_map Msgs outs).

(** All records of the batch come from one container. *)
Definition oneContainer (b : CloudwatchBatch) : Prop :=
  exists k, Forall (fun m => Container m = k) (Msgs b).

(** No record is over the maximum on its own. *)
Definition withinMax (events : list event) : Prop :=
  forall msg, In (Input msg) events -> wireSize msg <= MAX_BATCH_SIZE.

(** Records of [web] and [db] with two ticks. *)
Definition busy : list event :=
  [Input medium; Input (recordOf "db" 5); Input medium; Timer;
   Input small; Input (recordOf "db" 300); Timer].

(** Four short records of [web] with two of [db] in between. *)
Definition trickle : list CloudwatchMessage :=
  [small; recordOf "db" 5; small; small; recordOf "db" 300; small].

End Flow.

(** *** What the resolver forwards *)

Module Delivery.

Import Adapter.

(** The messages sent to the batcher, in order. *)
Definition sent (effs : list effect) : list CloudwatchMessage :=
  flat_map (fun e => match e with Send msg => [msg] | _ => [] end) effs.

(** The number of failed inspections; each one drops a record. *)
Definition failures (effs : list effect) : nat :=
  length (List.filter (fun e => match e with Inspected _ false => true | _ => false end)
                      effs).

(** What a message carries apart from the resolved names: the payload,
    the clock reading and the container key. *)
Definition carried (msg : CloudwatchMessage) : string * Z * string :=
  (Message msg, Time msg, Container msg).

Definition expected (r : Z * router.Message) : string * Z * string :=
  (router.Data r.2, r.1, strings.TrimPrefix (docker.Name (router.Container r.2)) "/").

(** The message [Stream] builds for the record [m] at clock [now]. *)
Definition forwarded (now : Z) (m : router.Message) (group stream : string)
    : CloudwatchMessage :=
  mkCloudwatchMessage (router.Data m) group stream now
    (strings.TrimPrefix (docker.Name (router.Container m)) "/").

(** An adapter that has [web] in its caches. *)
Definition warm : CloudwatchAdapter :=
  {| route := {| router.Address := "us-east-1"; router.Options := ∅ |};
     osHost := "logger";
     groupnames := {["/web" := "production"]};
     streamnames := {["/web" := "frontend"]} |}.

(** Records of [plain] and [web]. *)
Definition traffic : list (Z * router.Message) :=
  [(0, Resolver.record Resolver.plain "one");
   (1, Resolver.record Resolver.web "two");
   (2, Resolver.record Resolver.plain "three")].

(** Whether the byte occurs in the text. *)
Fixpoint hasByte (c : ascii) (s : string) : bool :=
  match s with
  | EmptyString => false
  | String x rest => Ascii.eqb x c || hasByte c rest
  end.

End Delivery.

(** *** Tokens over several batches *)

Module Sequencing.

Import cloudwatchlogs Fixtures.

(** In the state [s] the service rejects every submission that carries
    the token [t], and stays as it is. *)
Definition rejects {S : Type} {svc : Service S} (s : S) (t : string) : Prop :=
  forall params, SequenceToken params = Some t ->
    exists e, PutLogEvents params s = (Err e, s).

(** The round ended with a rejected submission that carried [t]. *)
Definition rejectedWith (t : string) (o : Uploader.outcome) : Prop :=
  exists params e, o = Uploader.PutError params e /\ SequenceToken params = Some t.

(** The round ended with an accepted submission. *)
Definition accepted (o : Uploader.outcome) : Prop :=
  exists params next, o = Uploader.Put200 params next.

(** The batch is one of the container [k] for the destination
    [group]/[stream]. *)
Definition destined (k group stream : string) (b : CloudwatchBatch) : Prop :=
  exists msg rest,
    Msgs b = msg :: rest /\ Container msg = k /\ Group msg = group /\ Stream msg = stream.

(** The token the in-memory service expects for a stream, if the stream
    exists. *)
Definition expects (s : logs) (group stream : string) : option (option string) :=
  snd <$> List.find (isStream group stream) (streams s).

(** The stream [app]/[web] exists and expects the token [5]. *)
Definition moved : logs :=
  {| groups := ["app"]; streams := [("app", "web", Some "5")]; issued := 6 |}.

(** Only the group [app-staging] exists. *)
Definition staging : logs :=
  {| groups := ["app-staging"]; streams := []; issued := 0 |}.

End Sequencing.

(** * Properties *)

(** ** The resolver *)

Section ResolverFacts.

Import Adapter Resolver.

Context (environ : gmap string string).
Context {engine : TemplateEngine}.
Context {D : Type} {client : docker.Client D}.

(** When parsing and execution succeed, [renderEnvValue] returns the
    template text it selected, whatever the rendering was. *)
Lemma renderEnvValue_success a envKey context defaultVal tmpl rendered :
  Parse (templateText environ a envKey context defaultVal) = Ok tmpl ->
  Execute tmpl context = Ok rendered ->
  renderEnvValue environ a envKey context defaultVal
  = templateText environ a envKey context defaultVal.
Proof.
  intros Hparse Hexec. unfold renderEnvValue, renderText.
  rewrite Hparse, Hexec. reflexivity.
Qed.

(** When parsing fails, [renderEnvValue] returns the default value. *)
Lemma renderEnvValue_parse_error a envKey context defaultVal e :
  Parse (templateText environ a envKey context defaultVal) = Err e ->
  renderEnvValue environ a envKey context defaultVal = defaultVal.
Proof.
  intros Hparse. unfold renderEnvValue, renderText. rewrite Hparse. reflexivity.
Qed.

(** When execution fails, [renderEnvValue] returns the default value. *)
Lemma renderEnvValue_execute_error a envKey context defaultVal tmpl e :
  Parse (templateText environ a envKey context defaultVal) = Ok tmpl ->
  Execute tmpl context = Err e ->
  renderEnvValue environ a envKey context defaultVal = defaultVal.
Proof.
  intros Hparse Hexec. unfold renderEnvValue, renderText.
  rewrite Hparse, Hexec. reflexivity.
Qed.

(** The text selected by [renderEnvValue] follows the precedence of the
    specification. *)
Lemma templateText_precedence a envKey context defaultVal :
  templateText environ a envKey context defaultVal
  = firstPresent (Env context !! envKey)
                 (router.Options (route a) !! envKey)
                 (variable environ envKey)
                 defaultVal.
Proof.
  unfold templateText, firstPresent, variable, Getenv.
  destruct (Env context !! envKey) as [v1|]; [reflexivity|].
  destruct (router.Options (route a) !! envKey) as [v2|]; [reflexivity|].
  destruct (environ !! envKey) as [v3|]; simpl.
  - destruct (decide (v3 = "")) as [->|Hne].
    + rewrite (bool_decide_eq_false_2 ("" ≠ "")) by (intros H; now apply H).
      reflexivity.
    + rewrite (bool_decide_eq_true_2 (v3 ≠ "")) by assumption.
      rewrite (bool_decide_eq_false_2 (v3 = "")) by assumption. reflexivity.
  - reflexivity.
Qed.

End ResolverFacts.

(** C7.  For each naming slot the expression is selected by the precedence
    container environment override > route option > process environment
    variable > built-in default, and the built-in default is the logger
    host name for the group and the container's display name for the
    stream: the names [Stream] resolves for a record are the renderings of
    the texts so selected, with those defaults. *)
Theorem C7_naming_precedence :
  forall (environ : gmap string string) (engine : TemplateEngine)
         (a : CloudwatchAdapter) (m : router.Message) (containerData : docker.Container),
    let context := Adapter.makeContext a m containerData in
    let override := Adapter.parseEnv (docker.Env (docker.Config_ (router.Container m))) in
    let groupText :=
      Resolver.firstPresent (override !! Adapter.LOG_GROUP)
                            (router.Options (route a) !! Adapter.LOG_GROUP)
                            (Resolver.variable environ Adapter.LOG_GROUP)
                            (LoggerHost context) in
    let streamText :=
      Resolver.firstPresent (override !! Adapter.LOG_STREAM)
                            (router.Options (route a) !! Adapter.LOG_STREAM)
                            (Resolver.variable environ Adapter.LOG_STREAM)
                            (strings.TrimPrefix (docker.Name (router.Container m)) "/") in
    Adapter.templateText environ a Adapter.LOG_GROUP context (osHost a) = groupText
    /\ Adapter.templateText environ a Adapter.LOG_STREAM context (Name context) = streamText
    /\ Adapter.groupNameOf environ a context
       = Adapter.renderText groupText context (LoggerHost context)
    /\ Adapter.streamNameOf environ a context
       = Adapter.renderText streamText context (Name context).
Proof.
  intros environ engine a m containerData context override groupText streamText.
  assert (Hg : Adapter.templateText environ a Adapter.LOG_GROUP context (osHost a) = groupText)
    by apply templateText_precedence.
  assert (Hs : Adapter.templateText environ a Adapter.LOG_STREAM context (Name context) = streamText)
    by apply templateText_precedence.
  repeat split; try assumption.
  - unfold Adapter.groupNameOf, Adapter.renderEnvValue. rewrite Hg. reflexivity.
  - unfold Adapter.streamNameOf, Adapter.renderEnvValue. rewrite Hs. reflexivity.
Qed.

(** C1.  At a container whose environment sets
    [LOG_GROUP={{.Name}}-logs], the template parses and renders to
    [web-logs], yet [renderEnvValue] returns the template text itself, and
    [Stream] caches and forwards that text as the group of the record. *)
Theorem C1_renderEnvValue_returns_template_text :
  let text := "{{.Name}}-logs" in
  Adapter.templateText ∅ Resolver.adapter0 Adapter.LOG_GROUP Resolver.webContext "logger" = text
  /\ (exists tmpl, Parse (TemplateEngine := Fixtures.fieldTemplates) text = Ok tmpl
                   /\ Execute tmpl Resolver.webContext = Ok "web-logs")
  /\ Adapter.renderEnvValue (engine := Fixtures.fieldTemplates)
       ∅ Resolver.adapter0 Adapter.LOG_GROUP Resolver.webContext "logger"
     = text
  /\ text <> "web-logs"
  /\ Resolver.webRun
     = [Adapter.Inspected Resolver.web true;
        Adapter.CacheWrite "/web" text "web";
        Adapter.Send {| Message := "hello"; Group := text; Stream := "web";
                        Time := 7; Container := "web" |}].
Proof.
  cbv zeta. split; [vm_compute; reflexivity|]. split.
  - eexists. split; vm_compute; reflexivity.
  - split; [vm_compute; reflexivity|]. split; [discriminate | vm_compute; reflexivity].
Qed.

Section CacheFacts.

Import Adapter Resolver.

Context (environ : gmap string string).
Context {engine : TemplateEngine}.
Context {D : Type} {client : docker.Client D}.

Lemma count_app p (l1 l2 : list effect) :
  count p (l1 ++ l2) = (count p l1 + count p l2)%nat.
Proof. unfold count. rewrite List.filter_app, length_app. reflexivity. Qed.

Lemma Stream_cons a now m rest d :
  Stream environ a ((now, m) :: rest) d
  = let '(a1, d1, effs1) := Stream_body environ a now m d in
    let '(a2, d2, effs2) := Stream environ a1 rest d1 in
    (a2, d2, (effs1 ++ effs2)%list).
Proof. reflexivity. Qed.

(** [Stream] tests the cache with the condition of line 508. *)
Lemma cached_test a name :
  cached a name <->
  bool_decide (default "" (streamnames a !! name) = "")
  || bool_decide (default "" (groupnames a !! name) = "") = false.
Proof.
  unfold cached. rewrite orb_false_iff, !bool_decide_eq_false. tauto.
Qed.

(** A record of a cached source is forwarded with the cached names:
    no lookup, no cache write. *)
Lemma Stream_body_hit a now m d :
  cached a (docker.Name (router.Container m)) ->
  exists msg, Stream_body environ a now m d = (a, d, [Send msg]).
Proof.
  intros Hc. apply cached_test in Hc. unfold Stream_body.
  rewrite Hc. eexists. reflexivity.
Qed.

(** A failed lookup drops the record and leaves the cache as it was. *)
Lemma Stream_body_lookup_failed a now m d e d' :
  ¬ cached a (docker.Name (router.Container m)) ->
  docker.InspectContainer (docker.ID (router.Container m)) d = (Err e, d') ->
  Stream_body environ a now m d = (a, d', [Inspected (router.Container m) false]).
Proof.
  intros Hc Hi. unfold Stream_body.
  destruct (bool_decide _ || bool_decide _) eqn:Ht.
  - rewrite Hi. reflexivity.
  - exfalso. apply Hc, cached_test. exact Ht.
Qed.

(** A successful lookup is followed by one cache write of the names
    resolved from the container data, and the record is forwarded. *)
Lemma Stream_body_lookup_ok a now m d containerData d' :
  ¬ cached a (docker.Name (router.Container m)) ->
  docker.InspectContainer (docker.ID (router.Container m)) d = (Ok containerData, d') ->
  let name := docker.Name (router.Container m) in
  let group := groupNameOf environ a (makeContext a m containerData) in
  let stream := streamNameOf environ a (makeContext a m containerData) in
  exists a1 msg,
    Stream_body environ a now m d
    = (a1, d', [Inspected (router.Container m) true; CacheWrite name group stream; Send msg])
    /\ groupnames a1 = <[name := group]> (groupnames a)
    /\ streamnames a1 = <[name := stream]> (streamnames a).
Proof.
  intros Hc Hi name group stream. unfold Stream_body.
  destruct (bool_decide _ || bool_decide _) eqn:Ht.
  - rewrite Hi. eexists _, _. split; [reflexivity|]. split; reflexivity.
  - exfalso. apply Hc, cached_test. exact Ht.
Qed.

(** The effect of one record on the source [name]: the four ways the
    loop body can go. *)
Lemma Stream_body_on a now m d name :
  let '(a1, d1, effs) := Stream_body environ a now m d in
  (docker.Name (router.Container m) ≠ name
   /\ groupnames a1 !! name = groupnames a !! name
   /\ streamnames a1 !! name = streamnames a !! name
   /\ lookups name effs = 0%nat /\ lookupsOk name effs = 0%nat
   /\ lookupsFailed name effs = 0%nat /\ cacheWrites name effs = 0%nat
   /\ (forall g s, ¬ In (CacheWrite name g s) effs))
  \/ (docker.Name (router.Container m) = name /\ cached a name /\ a1 = a
      /\ lookups name effs = 0%nat /\ lookupsOk name effs = 0%nat
      /\ lookupsFailed name effs = 0%nat /\ cacheWrites name effs = 0%nat
      /\ (forall g s, ¬ In (CacheWrite name g s) effs))
  \/ (docker.Name (router.Container m) = name /\ ¬ cached a name /\ a1 = a
      /\ lookups name effs = 1%nat /\ lookupsOk name effs = 0%nat
      /\ lookupsFailed name effs = 1%nat /\ cacheWrites name effs = 0%nat
      /\ (forall g s, ¬ In (CacheWrite name g s) effs))
  \/ (docker.Name (router.Container m) = name /\ ¬ cached a name
      /\ lookups name effs = 1%nat /\ lookupsOk name effs = 1%nat
      /\ lookupsFailed name effs = 0%nat /\ cacheWrites name effs = 1%nat
      /\ exists g s, In (CacheWrite name g s) effs
                     /\ groupnames a1 !! name = Some g
                     /\ streamnames a1 !! name = Some s).
Proof.
  destruct (decide (cached a (docker.Name (router.Container m)))) as [Hc|Hc].
  - destruct (Stream_body_hit a now m d Hc) as [msg ->].
    destruct (decide (docker.Name (router.Container m) = name)) as [<-|Hne].
    + right; left. repeat split; try assumption; try reflexivity; try apply Hc.
      intros g s [H|[]]. discriminate.
    + left. repeat split; try assumption; try reflexivity.
      intros g s [H|[]]. discriminate.
  - destruct (docker.InspectContainer (docker.ID (router.Container m)) d)
      as [[containerData|e] d'] eqn:Hi.
    + destruct (Stream_body_lookup_ok a now m d containerData d' Hc Hi)
        as (a1 & msg & -> & Hg & Hs).
      unfold lookups, lookupsOk, lookupsFailed, cacheWrites, count. simpl.
      destruct (decide (docker.Name (router.Container m) = name)) as [<-|Hne].
      * right; right; right.
        rewrite !bool_decide_eq_true_2 by reflexivity. simpl.
        repeat split; try assumption; try reflexivity.
        eexists _, _. split; [right; left; reflexivity|].
        rewrite Hg, Hs, !lookup_insert_eq. split; reflexivity.
      * left. rewrite !bool_decide_eq_false_2 by assumption. simpl.
        rewrite Hg, Hs, !lookup_insert_ne by assumption.
        repeat split; try assumption; try reflexivity.
        intros g s [H|[H|[H|[]]]]; try discriminate. congruence.
    + rewrite (Stream_body_lookup_failed a now m d e d' Hc Hi).
      unfold lookups, lookupsOk, lookupsFailed, cacheWrites, count. simpl.
      destruct (decide (docker.Name (router.Container m) = name)) as [<-|Hne].
      * right; right; left.
        rewrite !bool_decide_eq_true_2 by reflexivity. simpl.
        repeat split; try assumption; try reflexivity.
        intros g s [H|[]]. discriminate.
      * left. rewrite !bool_decide_eq_false_2 by assumption. simpl.
        repeat split; try assumption; try reflexivity.
        intros g s [H|[]]. discriminate.
Qed.

End CacheFacts.

Section CacheTheorem.

Import Adapter Resolver.

Context (environ : gmap string string).
Context {engine : TemplateEngine}.
Context {D : Type} {client : docker.Client D}.

Lemma cached_same a a1 name :
  groupnames a1 !! name = groupnames a !! name ->
  streamnames a1 !! name = streamnames a !! name ->
  cached a1 name <-> cached a name.
Proof. unfold cached. intros -> ->. tauto. Qed.

Lemma cached_written a1 name g s :
  groupnames a1 !! name = Some g -> streamnames a1 !! name = Some s ->
  g ≠ "" -> s ≠ "" -> cached a1 name.
Proof. unfold cached. intros -> ->. simpl. tauto. Qed.

Lemma namesNonEmpty_app name (l1 l2 : list effect) :
  namesNonEmpty name (l1 ++ l2) -> namesNonEmpty name l1 /\ namesNonEmpty name l2.
Proof.
  unfold namesNonEmpty. intros H.
  split; intros g s Hin; apply H, in_or_app; [left|right]; exact Hin.
Qed.

Lemma from_cons_other name now m rest :
  docker.Name (router.Container m) ≠ name ->
  from name ((now, m) :: rest) = from name rest.
Proof.
  intros Hne. unfold from. simpl.
  rewrite bool_decide_eq_false_2 by assumption. reflexivity.
Qed.

(** The run of [Stream], seen from one source. *)
Lemma Stream_per_source (logstream : list (Z * router.Message)) :
  forall (a : CloudwatchAdapter) (d : D) (name : string),
    let effs := (Stream environ a logstream d).2 in
    cacheWrites name effs = lookupsOk name effs
    /\ (cached a name -> lookups name effs = 0%nat /\ cacheWrites name effs = 0%nat)
    /\ (namesNonEmpty name effs ->
        (lookupsOk name effs <= 1)%nat /\ (cacheWrites name effs <= 1)%nat)
    /\ (namesNonEmpty name effs -> ¬ cached a name ->
        lookupsFailed name effs = 0%nat -> from name logstream ≠ [] ->
        lookups name effs = 1%nat /\ cacheWrites name effs = 1%nat).
Proof.
  induction logstream as [|[now m] rest IH]; intros a d name.
  - simpl. repeat split; try reflexivity; try (simpl; lia).
    all: try (unfold lookupsOk, cacheWrites, count; simpl; lia).
    all: congruence.
  - cbv zeta. rewrite Stream_cons.
    pose proof (Stream_body_on environ a now m d name) as Hbody.
    destruct (Stream_body environ a now m d) as [[a1 d1] effs1].
    specialize (IH a1 d1 name). cbv zeta in IH.
    destruct (Stream environ a1 rest d1) as [[a2 d2] effs2].
    cbn [snd] in IH |- *.
    destruct IH as (IHw & IHc & IHn & IHf).
    unfold lookups, lookupsOk, lookupsFailed, cacheWrites in *.
    rewrite !count_app.
    destruct Hbody as [H|[H|[H|H]]].
    + (* a record of another source *)
      destruct H as (Hne & Hg & Hs & -> & -> & -> & -> & Hnw).
      pose proof (cached_same a a1 name Hg Hs) as Hsame.
      rewrite (from_cons_other name now m rest Hne). simpl.
      repeat split.
      * exact IHw.
      * apply IHc, Hsame; assumption.
      * apply IHc, Hsame; assumption.
      * apply IHn. apply (namesNonEmpty_app name effs1 effs2); assumption.
      * apply IHn. apply (namesNonEmpty_app name effs1 effs2); assumption.
      * apply IHf; try assumption; [apply (namesNonEmpty_app name effs1 effs2)|];
          try assumption. rewrite Hsame. assumption.
      * apply IHf; try assumption; [apply (namesNonEmpty_app name effs1 effs2)|];
          try assumption. rewrite Hsame. assumption.
    + (* a record of this source, cached *)
      destruct H as (Hname & Hc & -> & -> & -> & -> & -> & Hnw). simpl.
      destruct (IHc Hc) as [Hl0 Hw0].
      repeat split; try tauto; try lia.
    + (* a record of this source, lookup failed *)
      destruct H as (Hname & Hc & -> & -> & -> & -> & -> & Hnw). simpl.
      repeat split; try tauto; try lia.
      all: apply IHn; apply (namesNonEmpty_app name effs1 effs2); assumption.
    + (* a record of this source, lookup succeeded *)
      destruct H as (Hname & Hc & -> & -> & -> & -> & (g & s & Hin & Hg & Hs)). simpl.
      assert (Hthen : namesNonEmpty name (effs1 ++ effs2) -> cached a1 name).
      { intros Hne. destruct (Hne g s) as [Hg0 Hs0]; [apply in_or_app; left; exact Hin|].
        exact (cached_written a1 name g s Hg Hs Hg0 Hs0). }
      repeat split; try tauto; try lia.
      all: match goal with Hne : namesNonEmpty _ _ |- _ =>
             destruct (IHc (Hthen Hne)) as [Hl0 Hw0] end; lia.
Qed.

(** The earlier revision inspects the container once for every record of
    the source. *)
Lemma Stream_uncached_lookups (logstream : list (Z * router.Message)) :
  forall (a : CloudwatchAdapter) (d : D) (name : string),
    lookups name (Stream_uncached environ a logstream d).2
    = length (from name logstream).
Proof.
  induction logstream as [|[now m] rest IH]; intros a d name; [reflexivity|].
  cbn [Stream_uncached]. unfold Stream_body_uncached.
  destruct (docker.InspectContainer (docker.ID (router.Container m)) d)
    as [[containerData|e] d1].
  all: specialize (IH a d1 name);
    destruct (Stream_uncached environ a rest d1) as [d2 effs2];
    cbn [snd] in *; unfold lookups in *; rewrite count_app, IH;
    unfold from, count; simpl;
    destruct (bool_decide (docker.Name (router.Container m) = name)); reflexivity.
Qed.

End CacheTheorem.




(** ** The accumulator *)

Section BatcherFacts.

Import Batcher Accumulator.

Lemma int64_small z : 0 <= z < 2 ^ 63 -> int64 z = z.
Proof.
  intros Hz. unfold int64.
  rewrite Z.mod_small by lia. lia.
Qed.

Lemma wireSize_pos msg : 26 <= wireSize msg.
Proof. unfold wireSize. lia. Qed.

Lemma totalSize_nonneg msgs : 0 <= totalSize msgs.
Proof.
  induction msgs as [|m msgs IH]; simpl; [lia|].
  pose proof (wireSize_pos m). lia.
Qed.

Lemma totalSize_app l1 l2 : totalSize (l1 ++ l2) = totalSize l1 + totalSize l2.
Proof. induction l1 as [|m l1 IH]; simpl; [reflexivity|]. rewrite IH. lia. Qed.

(** The computed size of a record that fits is its wire size. *)
Lemma msgSize_fits msg : fits msg -> msgSize msg = wireSize msg.
Proof.
  unfold fits, msgSize, MSG_OVERHEAD. intros Hf.
  pose proof (wireSize_pos msg) as Hp. unfold wireSize in *.
  apply int64_small. lia.
Qed.

(** The round of [Start] for a record, after the lookups are resolved:
    the open batch of the container (a new one if there is none) is sent
    and replaced when the record does not fit in it. *)
Lemma Start_body_Input batches msg :
  Start_body batches (Input msg)
  = let k := Container msg in
    let current := default NewCloudwatchBatch (batches !! k) in
    if MAX_BATCH_SIZE <? int64 (Size current + msgSize msg)
    then (<[k := Append NewCloudwatchBatch msg]> batches, [current])
    else (<[k := Append current msg]> batches, []).
Proof.
  unfold Start_body. cbv zeta.
  destruct (batches !! Container msg) as [b|] eqn:Hk; simpl.
  - rewrite Hk. simpl.
    destruct (MAX_BATCH_SIZE <? int64 (Size b + msgSize msg)).
    + rewrite lookup_insert_eq. simpl. rewrite insert_insert_eq. reflexivity.
    + rewrite Hk. reflexivity.
  - rewrite lookup_insert_eq. simpl.
    destruct (MAX_BATCH_SIZE <? int64 (0 + msgSize msg)).
    + rewrite lookup_insert_eq. simpl. rewrite !insert_insert_eq. reflexivity.
    + rewrite lookup_insert_eq. simpl. rewrite insert_insert_eq. reflexivity.
Qed.

Lemma Start_cons batches ev rest :
  Start batches (ev :: rest)
  = let '(batches1, out1) := Start_body batches ev in
    let '(batches2, out2) := Start batches1 rest in
    (batches2, (out1 ++ out2)%list).
Proof. reflexivity. Qed.

Lemma Start_app batches evs1 evs2 :
  Start batches (evs1 ++ evs2)
  = let '(batches1, out1) := Start batches evs1 in
    let '(batches2, out2) := Start batches1 evs2 in
    (batches2, (out1 ++ out2)%list).
Proof.
  revert batches. induction evs1 as [|ev evs1 IH]; intros batches.
  - simpl. destruct (Start batches evs2). reflexivity.
  - rewrite <- app_comm_cons, !Start_cons.
    destruct (Start_body batches ev) as [batches1 out1].
    rewrite IH. destruct (Start batches1 evs1) as [batches2 out2].
    destruct (Start batches2 evs2) as [batches3 out3].
    rewrite app_assoc. reflexivity.
Qed.

Lemma sized_new : sized NewCloudwatchBatch.
Proof. reflexivity. Qed.

Lemma bounded_new : bounded NewCloudwatchBatch.
Proof. left. unfold MAX_BATCH_SIZE. simpl. lia. Qed.

(** Appending to a batch with an exact size adds the wire size of the
    record, as long as the sum stays within [int64]. *)
Lemma Size_Append b msg :
  fits msg -> 0 <= Size b < 2 ^ 62 ->
  Size (Append b msg) = Size b + wireSize msg.
Proof.
  intros Hf Hb. simpl. rewrite (msgSize_fits msg Hf).
  pose proof (wireSize_pos msg). unfold fits in Hf.
  apply int64_small. lia.
Qed.

Lemma sized_Append b msg :
  sized b -> fits msg -> Size b < 2 ^ 62 -> sized (Append b msg).
Proof.
  unfold sized. intros Hs Hf Hb.
  pose proof (totalSize_nonneg (Msgs b)).
  rewrite Size_Append by (try assumption; lia).
  simpl. rewrite totalSize_app. simpl. lia.
Qed.

Lemma Msgs_Append_nonempty b msg : Msgs (Append b msg) <> [].
Proof. simpl. destruct (Msgs b); discriminate. Qed.

(** One round of [Start] keeps the invariant of the open batches, and
    every batch it sends has an exact size within the bound. *)
Lemma Start_body_invariant batches ev :
  openOk batches ->
  (forall msg, ev = Input msg -> fits msg) ->
  openOk (Start_body batches ev).1
  /\ forall b, In b (Start_body batches ev).2 -> sized b /\ bounded b.
Proof.
  intros Hinv Hfit. destruct ev as [msg|].
  - specialize (Hfit msg eq_refl).
    rewrite Start_body_Input. cbv zeta.
    set (k := Container msg).
    assert (Hcur : sized (default NewCloudwatchBatch (batches !! k))
                   /\ bounded (default NewCloudwatchBatch (batches !! k))
                   /\ Size (default NewCloudwatchBatch (batches !! k)) < 2 ^ 62).
    { destruct (batches !! k) as [b|] eqn:Hk; simpl.
      - destruct (Hinv k b Hk) as (? & ? & ? & ?). tauto.
      - split; [apply sized_new|]. split; [apply bounded_new | lia]. }
    destruct Hcur as (Hs & Hb & Hlt).
    set (current := default NewCloudwatchBatch (batches !! k)) in *.
    assert (Hge : 0 <= Size current).
    { unfold sized in Hs. rewrite Hs. apply totalSize_nonneg. }
    pose proof (wireSize_pos msg) as Hpos.
    assert (Hsum : int64 (Size current + msgSize msg) = Size current + wireSize msg).
    { rewrite (msgSize_fits msg Hfit). unfold fits in Hfit. apply int64_small. lia. }
    rewrite Hsum.
    destruct (Z.ltb_spec MAX_BATCH_SIZE (Size current + wireSize msg)) as [Hover|Hin];
      cbn [fst snd].
    + split.
      * intros k' b'. destruct (decide (k = k')) as [<-|Hne].
        -- rewrite lookup_insert_eq. intros [= <-].
           assert (Hsz : Size (Append NewCloudwatchBatch msg) = wireSize msg).
           { rewrite Size_Append by (try assumption; simpl; lia). simpl. lia. }
           split; [apply sized_Append; [apply sized_new | assumption | simpl; lia]|].
           split; [|split; [apply Msgs_Append_nonempty|]].
           ++ unfold bounded. rewrite Hsz.
              destruct (Z.le_gt_cases (wireSize msg) MAX_BATCH_SIZE) as [Hle|Hgt].
              ** left. exact Hle.
              ** right. exists msg. split; [reflexivity | lia].
           ++ rewrite Hsz. exact Hfit.
        -- rewrite lookup_insert_ne by assumption. apply Hinv.
      * intros b [<-|[]]. split; assumption.
    + split; [|intros b []].
      intros k' b'. destruct (decide (k = k')) as [<-|Hne].
      * rewrite lookup_insert_eq. intros [= <-].
        assert (Hsz : Size (Append current msg) = Size current + wireSize msg).
        { apply Size_Append; [assumption | lia]. }
        split; [apply sized_Append; assumption|].
        split; [|split; [apply Msgs_Append_nonempty|]].
        -- left. rewrite Hsz. exact Hin.
        -- rewrite Hsz. unfold MAX_BATCH_SIZE in Hin. lia.
      * rewrite lookup_insert_ne by assumption. apply Hinv.
  - simpl. split.
    + intros k b. rewrite lookup_empty. discriminate.
    + intros b Hb. apply list_elem_of_In, list_elem_of_fmap in Hb.
      destruct Hb as ([k b'] & -> & Hb). apply elem_of_map_to_list in Hb.
      destruct (Hinv k b' Hb) as (? & ? & ? & ?). simpl. tauto.
Qed.

Lemma Start_invariant events :
  forall batches,
    openOk batches -> inputsFit events ->
    openOk (Start batches events).1
    /\ forall b, In b (Start batches events).2 -> sized b /\ bounded b.
Proof.
  induction events as [|ev rest IH]; intros batches Hinv Hfit.
  - simpl. split; [assumption | intros b []].
  - rewrite Start_cons.
    destruct (Start_body_invariant batches ev Hinv) as [Hinv1 Hout1].
    { intros msg ->. apply Hfit. left. reflexivity. }
    destruct (Start_body batches ev) as [batches1 out1].
    destruct (IH batches1 Hinv1) as [Hinv2 Hout2].
    { intros msg Hin. apply Hfit. right. exact Hin. }
    destruct (Start batches1 rest) as [batches2 out2].
    cbn [fst snd] in *. split; [assumption|].
    intros b Hb. apply in_app_or in Hb. destruct Hb; [apply Hout1 | apply Hout2]; assumption.
Qed.

Lemma openOk_empty : openOk ∅.
Proof. intros k b. rewrite lookup_empty. discriminate. Qed.

(** While the records of one container fit in its open batch, [Start]
    appends them in order and sends nothing. *)
Lemma Start_fill k msgs :
  forall batches b,
    batches !! k = Some b -> sized b ->
    (forall m, In m msgs -> Container m = k /\ fits m) ->
    Size b + totalSize msgs <= MAX_BATCH_SIZE ->
    Start batches (map Input msgs)
    = (<[k := {| Msgs := (Msgs b ++ msgs)%list; Size := Size b + totalSize msgs |}]> batches,
       []).
Proof.
  induction msgs as [|m msgs IH]; intros batches b Hk Hs Hall Hle.
  - simpl. f_equal. symmetry. apply insert_id.
    rewrite Hk. f_equal. destruct b as [ms sz]. simpl.
    rewrite app_nil_r, Z.add_0_r. reflexivity.
  - destruct (Hall m (or_introl eq_refl)) as [Hkm Hfm].
    simpl map. rewrite Start_cons, Start_body_Input. cbv zeta.
    rewrite Hkm, Hk. simpl default.
    assert (Hge : 0 <= Size b) by (rewrite Hs; apply totalSize_nonneg).
    pose proof (totalSize_nonneg msgs) as Hrest.
    pose proof (wireSize_pos m) as Hpos.
    simpl totalSize in Hle. unfold MAX_BATCH_SIZE in Hle.
    assert (Hsz : int64 (Size b + msgSize m) = Size b + wireSize m).
    { apply (Size_Append b m); [assumption | lia]. }
    rewrite Hsz.
    destruct (Z.ltb_spec MAX_BATCH_SIZE (Size b + wireSize m)) as [Hover|_];
      [unfold MAX_BATCH_SIZE in Hover; lia|].
    rewrite (IH (<[k := Append b m]> batches) (Append b m)).
    + rewrite insert_insert_eq. simpl Msgs. simpl Size. rewrite Hsz.
      rewrite <- app_assoc. simpl. do 3 f_equal. lia.
    + apply lookup_insert_eq.
    + apply sized_Append; [assumption | assumption | lia].
    + intros m' Hin. apply Hall. right. exact Hin.
    + simpl Size. rewrite Hsz. unfold MAX_BATCH_SIZE. lia.
Qed.

End BatcherFacts.

Section BatcherRuns.

Import Batcher Accumulator.

Lemma Append_new msg : fits msg -> Append NewCloudwatchBatch msg = batchOf [msg].
Proof.
  intros Hf. unfold batchOf, Append. simpl. f_equal.
  rewrite (msgSize_fits msg Hf). pose proof (wireSize_pos msg).
  unfold fits in Hf. rewrite int64_small by lia. lia.
Qed.

(** The first records of a container open a batch and fill it. *)
Lemma Start_open k msgs batches :
  batches !! k = None -> msgs <> [] ->
  (forall m, In m msgs -> Container m = k /\ fits m) ->
  totalSize msgs <= MAX_BATCH_SIZE ->
  Start batches (map Input msgs) = (<[k := batchOf msgs]> batches, []).
Proof.
  intros Hk Hne Hall Hle. destruct msgs as [|p msgs]; [congruence|].
  destruct (Hall p (or_introl eq_refl)) as [Hkp Hfp].
  simpl map. rewrite Start_cons, Start_body_Input. cbv zeta.
  rewrite Hkp, Hk. simpl default.
  pose proof (totalSize_nonneg msgs) as Hrest. pose proof (wireSize_pos p) as Hpos.
  simpl totalSize in Hle.
  rewrite (Append_new p Hfp).
  assert (Hsz : int64 (Size NewCloudwatchBatch + msgSize p) = wireSize p).
  { rewrite (msgSize_fits p Hfp). unfold fits in Hfp. simpl.
    rewrite int64_small by lia. reflexivity. }
  rewrite Hsz.
  destruct (Z.ltb_spec MAX_BATCH_SIZE (wireSize p)) as [Hover|_]; [lia|].
  rewrite (Start_fill k msgs (<[k := batchOf [p]]> batches) (batchOf [p])).
  - rewrite insert_insert_eq. unfold batchOf. simpl. do 3 f_equal. lia.
  - apply lookup_insert_eq.
  - reflexivity.
  - intros m Hin. apply Hall. right. exact Hin.
  - simpl. lia.
Qed.

(** A record that does not fit in the open batch of its container makes
    [Start] send that batch and open a new one with the record. *)
Lemma Start_body_cross k batches b c :
  batches !! k = Some b -> sized b -> Size b < 2 ^ 62 ->
  Container c = k -> fits c ->
  MAX_BATCH_SIZE < Size b + wireSize c ->
  Start_body batches (Input c) = (<[k := batchOf [c]]> batches, [b]).
Proof.
  intros Hk Hs Hlt Hkc Hfc Hover.
  rewrite Start_body_Input. cbv zeta. rewrite Hkc, Hk. simpl default.
  assert (Hge : 0 <= Size b) by (rewrite Hs; apply totalSize_nonneg).
  pose proof (wireSize_pos c) as Hpos.
  assert (Hsz : int64 (Size b + msgSize c) = Size b + wireSize c).
  { apply (Size_Append b c); [assumption | lia]. }
  rewrite Hsz.
  destruct (Z.ltb_spec MAX_BATCH_SIZE (Size b + wireSize c)) as [_|Hle]; [|lia].
  rewrite (Append_new c Hfc). reflexivity.
Qed.

(** A round sends a batch without records only for a record that is over
    the maximum on its own and finds no open batch for its container. *)
Lemma Start_body_sends_empty batches ev b :
  openOk batches ->
  (forall msg, ev = Input msg -> fits msg) ->
  In b (Start_body batches ev).2 -> Msgs b = [] ->
  exists msg, ev = Input msg /\ batches !! Container msg = None
              /\ MAX_BATCH_SIZE < wireSize msg.
Proof.
  intros Hinv Hfit Hb Hempty. destruct ev as [msg|].
  - specialize (Hfit msg eq_refl). exists msg. split; [reflexivity|].
    rewrite Start_body_Input in Hb. cbv zeta in Hb.
    destruct (batches !! Container msg) as [b0|] eqn:Hk; simpl default in Hb.
    + exfalso.
      destruct (MAX_BATCH_SIZE <? int64 (Size b0 + msgSize msg)); simpl in Hb;
        [|contradiction].
      destruct Hb as [<-|[]]. destruct (Hinv _ _ Hk) as (_ & _ & Hne & _). congruence.
    + split; [reflexivity|].
      assert (Hsz : int64 (Size NewCloudwatchBatch + msgSize msg) = wireSize msg).
      { rewrite (msgSize_fits msg Hfit). pose proof (wireSize_pos msg).
        unfold fits in Hfit. simpl. rewrite int64_small by lia. reflexivity. }
      rewrite Hsz in Hb.
      destruct (Z.ltb_spec MAX_BATCH_SIZE (wireSize msg)) as [Hover|_];
        [exact Hover | simpl in Hb; contradiction].
  - exfalso. simpl in Hb. apply list_elem_of_In, list_elem_of_fmap in Hb.
    destruct Hb as ([k b'] & -> & Hb). apply elem_of_map_to_list in Hb.
    destruct (Hinv k b' Hb) as (_ & _ & Hne & _). simpl in Hempty. congruence.
Qed.

(** When no record is over the maximum on its own, every batch sent has
    at least one record; in particular a timer tick never sends an empty
    batch. *)
Lemma Start_sends_records events :
  forall batches,
    openOk batches -> inputsFit events ->
    (forall msg, In (Input msg) events -> wireSize msg <= MAX_BATCH_SIZE) ->
    forall b, In b (Start batches events).2 -> Msgs b <> [].
Proof.
  induction events as [|ev rest IH]; intros batches Hinv Hfit Hmax b Hb.
  - destruct Hb.
  - rewrite Start_cons in Hb.
    assert (Hfit1 : forall msg, ev = Input msg -> fits msg).
    { intros msg ->. apply Hfit. left. reflexivity. }
    pose proof (Start_body_invariant batches ev Hinv Hfit1) as [Hinv1 _].
    pose proof (Start_body_sends_empty batches ev b Hinv Hfit1) as Hempty.
    destruct (Start_body batches ev) as [batches1 out1].
    specialize (IH batches1 Hinv1).
    destruct (Start batches1 rest) as [batches2 out2].
    cbn [fst snd] in *. apply in_app_or in Hb. destruct Hb as [Hb|Hb].
    + intros He. destruct (Hempty Hb He) as (msg & -> & _ & Hover).
      specialize (Hmax msg (or_introl eq_refl)). lia.
    + apply IH; try assumption.
      * intros msg Hin. apply Hfit. right. exact Hin.
      * intros msg Hin. apply Hmax. right. exact Hin.
Qed.

End BatcherRuns.

(** C3.  Every batch the accumulator sends, over any sequence of records
    and timer ticks from the empty map, has a [Size] equal to the sum of
    the wire sizes of its records (payload length times 8, plus 26), and
    that size is within [MAX_BATCH_SIZE] unless the batch is a single
    record whose own wire size is over it.  The records are assumed short
    enough for the sizes not to wrap around in [int64]. *)
Theorem C3_batch_size_invariant :
  forall (events : list Batcher.event),
    Accumulator.inputsFit events ->
    forall b, In b (Batcher.Start ∅ events).2 ->
      Size b = Accumulator.totalSize (Msgs b)
      /\ (Size b <= Batcher.MAX_BATCH_SIZE
          \/ exists m, Msgs b = [m] /\ Batcher.MAX_BATCH_SIZE < Accumulator.wireSize m).
Proof.
  intros events Hfit b Hb.
  destruct (Start_invariant events ∅ openOk_empty Hfit) as [_ Hout].
  exact (Hout b Hb).
Qed.

(** Two records that overflow and a tick: the batch of the first record
    is sent with its exact size. *)
Lemma C3_batch_size_witness :
  Size (Accumulator.batchOf [Accumulator.medium])
  = Accumulator.totalSize (Msgs (Accumulator.batchOf [Accumulator.medium]))
  /\ (Size (Accumulator.batchOf [Accumulator.medium]) <= Batcher.MAX_BATCH_SIZE
      \/ exists m, Msgs (Accumulator.batchOf [Accumulator.medium]) = [m]
                   /\ Batcher.MAX_BATCH_SIZE < Accumulator.wireSize m).
Proof.
  apply (C3_batch_size_invariant
           [Batcher.Input Accumulator.medium; Batcher.Input Accumulator.medium;
            Batcher.Timer]).
  - intros msg [H|[H|[H|[]]]]; inversion H; vm_compute; reflexivity.
  - vm_compute. left. reflexivity.
Defined.

Section BatcherStreams.

Import Batcher Accumulator.

Lemma Start_body_keyed batches ev :
  keyed batches -> keyed (Start_body batches ev).1.
Proof.
  intros Hk. destruct ev as [msg|].
  - rewrite Start_body_Input. cbv zeta.
    assert (Hcur : forall m, In m (Msgs (default NewCloudwatchBatch (batches !! Container msg)))
                             -> Container m = Container msg).
    { destruct (batches !! Container msg) as [b|] eqn:Hb; simpl.
      - apply (Hk _ _ Hb).
      - intros m []. }
    destruct (MAX_BATCH_SIZE <? _); cbn [fst]; intros k b.
    + destruct (decide (Container msg = k)) as [<-|Hne].
      * rewrite lookup_insert_eq. intros [= <-] m [<-|[]]. reflexivity.
      * rewrite lookup_insert_ne by assumption. apply Hk.
    + destruct (decide (Container msg = k)) as [<-|Hne].
      * rewrite lookup_insert_eq. intros [= <-] m Hin. simpl in Hin.
        apply in_app_or in Hin. destruct Hin as [Hin|[<-|[]]]; [apply Hcur, Hin | reflexivity].
      * rewrite lookup_insert_ne by assumption. apply Hk.
  - simpl. intros k b. rewrite lookup_empty. discriminate.
Qed.

(** A record of another container leaves the open batch of [k] alone and
    sends no batch of the stream [k]. *)
Lemma Start_body_other k batches msg :
  keyed batches -> Container msg <> k ->
  (Start_body batches (Input msg)).1 !! k = batches !! k
  /\ List.filter (ofStream k) (Start_body batches (Input msg)).2 = [].
Proof.
  intros Hk Hne. rewrite Start_body_Input. cbv zeta.
  destruct (MAX_BATCH_SIZE <? _); cbn [fst snd].
  - split; [apply lookup_insert_ne; assumption|].
    simpl. unfold ofStream, streamKey.
    destruct (batches !! Container msg) as [b|] eqn:Hb; simpl; [|reflexivity].
    destruct (Msgs b) as [|m rest] eqn:Hm; simpl; [reflexivity|].
    rewrite bool_decide_eq_false_2; [reflexivity|].
    intros [= Hc]. apply Hne. rewrite <- Hc. symmetry.
    apply (Hk _ _ Hb). rewrite Hm. left. reflexivity.
  - split; [apply lookup_insert_ne; assumption | reflexivity].
Qed.

(** What a record does to the open batch of its container depends on
    that batch only. *)
Lemma Start_body_same batches batches' msg :
  batches' !! Container msg = batches !! Container msg ->
  (Start_body batches (Input msg)).1 !! Container msg
  = (Start_body batches' (Input msg)).1 !! Container msg
  /\ (Start_body batches (Input msg)).2 = (Start_body batches' (Input msg)).2.
Proof.
  intros Heq. rewrite !Start_body_Input. cbv zeta. rewrite Heq.
  destruct (MAX_BATCH_SIZE <? _); cbn [fst snd]; rewrite !lookup_insert_eq;
    split; reflexivity.
Qed.

(** Without timer ticks, the batches of the stream [k] are those the
    records of [k] alone would make. *)
Lemma Start_local k msgs :
  forall batches batches',
    keyed batches -> batches' !! k = batches !! k ->
    (Start batches (map Input msgs)).1 !! k
    = (Start batches' (map Input (List.filter (fromContainer k) msgs))).1 !! k
    /\ List.filter (ofStream k) (Start batches (map Input msgs)).2
       = List.filter (ofStream k)
           (Start batches' (map Input (List.filter (fromContainer k) msgs))).2.
Proof.
  induction msgs as [|m msgs IH]; intros batches batches' Hk Heq.
  - simpl. split; [symmetry; exact Heq | reflexivity].
  - cbn [map]. rewrite Start_cons.
    pose proof (Start_body_keyed batches (Input m) Hk) as Hk1.
    change (List.filter (fromContainer k) (m :: msgs))
      with (if fromContainer k m then m :: List.filter (fromContainer k) msgs
            else List.filter (fromContainer k) msgs).
    unfold fromContainer at 1 4.
    destruct (decide (Container m = k)) as [Hc|Hc].
    + rewrite (bool_decide_eq_true_2 _ Hc). cbn [map]. rewrite Start_cons.
      subst k. destruct (Start_body_same batches batches' m Heq) as [Hl Ho].
      destruct (Start_body batches (Input m)) as [batches1 out1].
      destruct (Start_body batches' (Input m)) as [batches1' out1'].
      cbn [fst snd] in *. subst out1'.
      destruct (IH batches1 batches1' Hk1 (eq_sym Hl)) as [IHl IHo].
      destruct (Start batches1 (map Input msgs)) as [batches2 out2].
      destruct (Start batches1' _) as [batches2' out2'].
      cbn [fst snd] in *. split; [exact IHl|].
      rewrite !List.filter_app, IHo. reflexivity.
    + rewrite (bool_decide_eq_false_2 _ Hc).
      destruct (Start_body_other k batches m Hk Hc) as [Hl Ho].
      destruct (Start_body batches (Input m)) as [batches1 out1].
      cbn [fst snd] in *.
      destruct (IH batches1 batches' Hk1) as [IHl IHo]; [congruence|].
      destruct (Start batches1 (map Input msgs)) as [batches2 out2].
      cbn [fst snd] in *. split; [exact IHl|].
      rewrite List.filter_app, Ho. exact IHo.
Qed.

(** The records of one container alone: the batch of the records before
    the crossing record is sent, the crossing record opens the next one. *)
Lemma Start_single_stream_overflow :
  forall (batches : gmap string CloudwatchBatch) (k : string)
         (pre : list CloudwatchMessage) (c : CloudwatchMessage)
         (post : list CloudwatchMessage),
    batches !! k = None ->
    (forall m, In m (pre ++ c :: post) -> Container m = k /\ Accumulator.fits m) ->
    pre <> [] ->
    Accumulator.crossesAt pre c ->
    (post = [] \/ Accumulator.totalSize (c :: post) <= Batcher.MAX_BATCH_SIZE) ->
    Batcher.Start batches (map Batcher.Input (pre ++ c :: post))
    = (<[k := Accumulator.batchOf (c :: post)]> batches, [Accumulator.batchOf pre]).
Proof.
  intros batches k pre c post Hk Hall Hne [Hle Hover] Hpost.
  assert (Hc : Container c = k /\ Accumulator.fits c).
  { apply Hall, in_or_app. right. left. reflexivity. }
  destruct Hc as [Hkc Hfc].
  rewrite map_app, Start_app.
  rewrite (Start_open k pre batches Hk Hne); [|
    intros m Hin; apply Hall, in_or_app; left; exact Hin | exact Hle].
  simpl map. rewrite Start_cons.
  rewrite (Start_body_cross k (<[k := Accumulator.batchOf pre]> batches)
             (Accumulator.batchOf pre) c);
    [| apply lookup_insert_eq | reflexivity
     | simpl; unfold Batcher.MAX_BATCH_SIZE in Hle; lia | exact Hkc | exact Hfc
     | exact Hover].
  rewrite insert_insert_eq.
  destruct Hpost as [->|Hpost].
  - reflexivity.
  - rewrite (Start_fill k post (<[k := Accumulator.batchOf [c]]> batches)
               (Accumulator.batchOf [c])).
    + rewrite insert_insert_eq. unfold Accumulator.batchOf. simpl.
      do 3 f_equal. lia.
    + apply lookup_insert_eq.
    + reflexivity.
    + intros m Hin. apply Hall, in_or_app. right. right. exact Hin.
    + simpl in *. lia.
Qed.


End BatcherStreams.

(** C8 (amended).  Records of any containers arrive with no timer tick.
    The container [k] has no open batch, and the cumulative wire size of
    its records first exceeds [MAX_BATCH_SIZE] at the record [c], which is
    not its first one; its records from [c] on fit in one batch.  Then the
    accumulator sends exactly one batch of the stream [k], holding in
    arrival order the records of [k] before [c], and keeps a second batch
    open for [k], holding [c] and the records of [k] after it. *)
Theorem C8_overflow_sends_first_batch_keeps_second_open :
  forall (batches : gmap string CloudwatchBatch) (k : string)
         (msgs pre : list CloudwatchMessage) (c : CloudwatchMessage)
         (post : list CloudwatchMessage),
    Accumulator.keyed batches ->
    batches !! k = None ->
    (forall m, In m msgs -> Accumulator.fits m) ->
    List.filter (Accumulator.fromContainer k) msgs = (pre ++ c :: post)%list ->
    pre <> [] ->
    Accumulator.crossesAt pre c ->
    (post = [] \/ Accumulator.totalSize (c :: post) <= Batcher.MAX_BATCH_SIZE) ->
    List.filter (Accumulator.ofStream k) (Batcher.Start batches (map Batcher.Input msgs)).2
    = [Accumulator.batchOf pre]
    /\ (Batcher.Start batches (map Batcher.Input msgs)).1 !! k
       = Some (Accumulator.batchOf (c :: post)).
Proof.
  intros batches k msgs pre c post Hkeyed Hk Hfit Hmsgs Hne Hcross Hpost.
  destruct (Start_local k msgs batches batches Hkeyed eq_refl) as [Hl Ho].
  rewrite Hl, Ho, Hmsgs.
  assert (Hall : forall m, In m (pre ++ c :: post) ->
                           Container m = k /\ Accumulator.fits m).
  { intros m Hin. rewrite <- Hmsgs in Hin. apply List.filter_In in Hin.
    destruct Hin as [Hin Hc]. split; [|apply Hfit, Hin].
    unfold Accumulator.fromContainer in Hc. apply bool_decide_eq_true in Hc. exact Hc. }
  rewrite (Start_single_stream_overflow batches k pre c post Hk Hall Hne Hcross Hpost).
  cbn [fst snd]. split; [|apply lookup_insert_eq].
  simpl. unfold Accumulator.ofStream, streamKey.
  destruct pre as [|p pre']; [congruence|]. simpl.
  destruct (Hall p (or_introl eq_refl)) as [Hp _].
  rewrite bool_decide_eq_true_2 by (f_equal; exact Hp). reflexivity.
Qed.

(** Two records of 2002 bytes and a short one from [web], with a record
    of [db] in between: the first record of [web] is sent, its other two
    stay in the open batch. *)
Lemma C8_overflow_witness :
  List.filter (Accumulator.ofStream "web")
              (Batcher.Start ∅ (map Batcher.Input Accumulator.mixed)).2
  = [Accumulator.batchOf [Accumulator.medium]]
  /\ (Batcher.Start ∅ (map Batcher.Input Accumulator.mixed)).1 !! "web"
     = Some (Accumulator.batchOf [Accumulator.medium; Accumulator.small]).
Proof.
  apply (C8_overflow_sends_first_batch_keeps_second_open
           ∅ "web" Accumulator.mixed
           [Accumulator.medium] Accumulator.medium [Accumulator.small]).
  - intros k b H. rewrite lookup_empty in H. discriminate.
  - reflexivity.
  - intros m [H|[H|[H|[H|[]]]]]; subst m; vm_compute; reflexivity.
  - reflexivity.
  - discriminate.
  - split; vm_compute; [discriminate | reflexivity].
  - right. vm_compute. discriminate.
Defined.

(** C8 as stated fails: the cumulative size of two records of 2002 bytes
    crosses the maximum at the second one, and without a timer tick the
    accumulator sends one batch, not two; the second record stays in the
    open batch. *)
Lemma C8_counterexample :
  Accumulator.crossesAt [Accumulator.medium] Accumulator.medium
  /\ (Batcher.Start ∅ [Batcher.Input Accumulator.medium; Batcher.Input Accumulator.medium]).2
     = [Accumulator.batchOf [Accumulator.medium]]
  /\ (Batcher.Start ∅ [Batcher.Input Accumulator.medium; Batcher.Input Accumulator.medium]).1
       !! "web"
     = Some (Accumulator.batchOf [Accumulator.medium]).
Proof.
  split; [split; vm_compute; [discriminate | reflexivity]|].
  split; vm_compute; reflexivity.
Qed.

(** C9.  A first record of 372 bytes (wire size 3002) for a container
    without an open batch makes the accumulator send the new, empty batch;
    the uploader's [batch.Msgs[0]] on it is out of range. *)
Theorem C9_empty_batch_is_flushed :
  Batcher.Start ∅ [Batcher.Input Accumulator.oversized]
  = (<["web" := Accumulator.batchOf [Accumulator.oversized]]> ∅,
     [Batcher.NewCloudwatchBatch])
  /\ Msgs Batcher.NewCloudwatchBatch = []
  /\ forall (S : Type) (svc : cloudwatchlogs.Service S) (fuel : nat)
            (tokens : gmap string string) (s : S),
       Uploader.Start_body fuel tokens Batcher.NewCloudwatchBatch s
       = Some (Uploader.IndexOutOfRange, tokens, s).
Proof.
  split; [vm_compute; reflexivity|]. split; reflexivity.
Qed.

(** ** The dispatcher *)

Section UploaderFacts.

Import cloudwatchlogs Uploader Dispatcher.

Context {S : Type} {svc : Service S}.

(** With a cached token the round needs no fetch: it submits the batch
    with that token, whatever the fuel and the service. *)
Lemma Start_body_cached fuel tokens batch msg rest t s :
  Msgs batch = msg :: rest ->
  tokens !! Container msg = Some t ->
  exists o tokens' s',
    Start_body fuel tokens batch s = Some (o, tokens', s')
    /\ submitted o = Some (putParams msg batch (Some t)).
Proof.
  intros Hm Ht. unfold Start_body, fetchToken. rewrite Hm, Ht.
  destruct (PutLogEvents (putParams msg batch (Some t)) s) as [[next|e] s2];
    eexists _, _, _; split; reflexivity.
Qed.

(** A round writes the token cache only under the stream key of its
    batch. *)
Lemma Start_body_other_key fuel tokens batch s o tokens' s' k :
  Start_body fuel tokens batch s = Some (o, tokens', s') ->
  streamKey batch ≠ Some k ->
  tokens' !! k = tokens !! k.
Proof.
  unfold Start_body, fetchToken, streamKey.
  destruct (Msgs batch) as [|msg rest]; simpl.
  - intros [= <- <- <-] _. reflexivity.
  - intros H Hk. assert (Hne : Container msg ≠ k) by congruence.
    destruct (tokens !! Container msg) as [t|].
    + destruct (PutLogEvents _ s) as [[[next|]|e] s2]; injection H as <- <- <-;
        rewrite ?lookup_insert_ne by assumption; reflexivity.
    + destruct (getSequenceToken fuel msg s) as [[[[t|]|e] s1]|]; try discriminate.
      * destruct (PutLogEvents _ s1) as [[[next|]|e] s2]; injection H as <- <- <-;
          rewrite ?lookup_insert_ne by assumption; reflexivity.
      * destruct (PutLogEvents _ s1) as [[[next|]|e] s2]; injection H as <- <- <-;
          rewrite ?lookup_insert_ne by assumption; reflexivity.
      * injection H as <- <- <-. reflexivity.
Qed.

(** Batches of other streams leave the cached token of a stream alone. *)
Lemma Start_other_keys fuel k (input : list CloudwatchBatch) :
  forall tokens s os tokens' s',
    (forall b, In b input -> streamKey b ≠ Some k) ->
    Start fuel tokens input s = Some (os, tokens', s') ->
    tokens' !! k = tokens !! k.
Proof.
  induction input as [|batch rest IH]; intros tokens s os tokens' s' Hall H.
  - simpl in H. injection H as <- <- <-. reflexivity.
  - simpl in H.
    destruct (Start_body fuel tokens batch s) as [[[o tokens1] s1]|] eqn:Hb;
      [|discriminate].
    assert (H1 : tokens1 !! k = tokens !! k).
    { apply (Start_body_other_key fuel tokens batch s o tokens1 s1 k Hb).
      apply Hall. left. reflexivity. }
    assert (Hrest : forall b, In b rest -> streamKey b ≠ Some k).
    { intros b Hin. apply Hall. right. exact Hin. }
    destruct o.
    + injection H as <- <- <-. exact H1.
    + destruct (Start fuel tokens1 rest s1) as [[[os2 tokens2] s2]|] eqn:Hr;
        [|discriminate].
      injection H as <- <- <-. rewrite <- H1. exact (IH _ _ _ _ _ Hrest Hr).
    + destruct (Start fuel tokens1 rest s1) as [[[os2 tokens2] s2]|] eqn:Hr;
        [|discriminate].
      injection H as <- <- <-. rewrite <- H1. exact (IH _ _ _ _ _ Hrest Hr).
    + destruct (Start fuel tokens1 rest s1) as [[[os2 tokens2] s2]|] eqn:Hr;
        [|discriminate].
      injection H as <- <- <-. rewrite <- H1. exact (IH _ _ _ _ _ Hrest Hr).
Qed.

End UploaderFacts.

(** C4 (amended).  One round of the dispatcher writes the token cache at
    two places, both under the stream key of the batch, and the cache
    after the round is exactly the result of these two writes: when the
    key is not cached and the fetch from the remote service returns a
    token, that token is cached before the submission; and when the
    submission succeeds and answers a next token, that token is cached.
    In every other case the step leaves the cache as it was. *)
Theorem C4_token_cache_written_by_fetch_and_by_submission :
  forall (S : Type) (svc : cloudwatchlogs.Service S) (fuel : nat)
         (tokens : gmap string string) (batch : CloudwatchBatch) (s : S)
         (o : Uploader.outcome) (tokens' : gmap string string) (s' : S),
    Uploader.Start_body fuel tokens batch s = Some (o, tokens', s') ->
    match Msgs batch with
    | [] => tokens' = tokens
    | msg :: _ =>
        let afterFetch :=
          match tokens !! Container msg with
          | Some _ => tokens
          | None =>
              match Uploader.getSequenceToken fuel msg s with
              | Some (Ok (Some t), _) => <[Container msg := t]> tokens
              | _ => tokens
              end
          end in
        tokens' = match o with
                  | Uploader.Put200 _ (Some next) => <[Container msg := next]> afterFetch
                  | _ => afterFetch
                  end
    end.
Proof.
  intros S svc fuel tokens batch s o tokens' s'.
  unfold Uploader.Start_body, Uploader.fetchToken.
  destruct (Msgs batch) as [|msg rest].
  - intros [= <- <- <-]. reflexivity.
  - cbv zeta. destruct (tokens !! Container msg) as [t|].
    + destruct (cloudwatchlogs.PutLogEvents _ s) as [[[next|]|e] s2];
        intros [= <- <- <-]; reflexivity.
    + destruct (Uploader.getSequenceToken fuel msg s) as [[[[t|]|e] s1]|];
        try discriminate.
      * destruct (cloudwatchlogs.PutLogEvents _ s1) as [[[next|]|e] s2];
          intros [= <- <- <-]; reflexivity.
      * destruct (cloudwatchlogs.PutLogEvents _ s1) as [[[next|]|e] s2];
          intros [= <- <- <-]; reflexivity.
      * intros [= <- <- <-]. reflexivity.
Qed.

(** A round that fetches [tok0] and submits with success: the cache holds
    [tok0] and then [tok1]. *)
Lemma C4_token_cache_witness :
  exists o tokens' s',
    Uploader.Start_body (svc := Fixtures.script) 1 (∅ : gmap string string)
      Dispatcher.webBatch Dispatcher.fetchThenPut
    = Some (o, tokens', s')
    /\ tokens' = <["web" := "tok1"]> (<["web" := "tok0"]> ∅).
Proof.
  destruct (Uploader.Start_body (svc := Fixtures.script) 1 (∅ : gmap string string)
              Dispatcher.webBatch Dispatcher.fetchThenPut)
    as [[[o tokens'] s']|] eqn:Hrun.
  - pose proof (C4_token_cache_written_by_fetch_and_by_submission
                  _ Fixtures.script 1 ∅ Dispatcher.webBatch Dispatcher.fetchThenPut
                  o tokens' s' Hrun) as H.
    exists o, tokens', s'. split; [reflexivity|].
    vm_compute in Hrun. injection Hrun as <- <- <-. exact H.
  - vm_compute in Hrun. discriminate.
Defined.

(** C4 as stated fails: with no cached token, the round fetches [tok0]
    from the remote service and caches it; the submission then fails, and
    the cache holds a token that no submission returned. *)
Lemma C4_counterexample :
  exists params e s',
    Uploader.Start_body (svc := Fixtures.script)
      1 (∅ : gmap string string) Dispatcher.webBatch Dispatcher.fetchThenFail
    = Some (Uploader.PutError params e, {["web" := "tok0"]}, s')
    /\ (∅ : gmap string string) !! "web" = None.
Proof. eexists _, _, _. split; vm_compute; reflexivity. Qed.

(** C6.  When the submission of a batch fails, the token cache after the
    round is the cache as it was when the submission was sent (and the
    whole cache as it was before the round when the stream key was cached
    then); batches of other streams handled afterwards do not change the
    token cached for the stream key; and the next batch with the same
    stream key is submitted with that cached token. *)
Theorem C6_failed_submission_keeps_token :
  forall (S : Type) (svc : cloudwatchlogs.Service S) (fuel : nat)
         (tokens : gmap string string) (batch : CloudwatchBatch) (s : S)
         (params : cloudwatchlogs.PutLogEventsInput) (e : string)
         (tokens' : gmap string string) (s' : S),
    Uploader.Start_body fuel tokens batch s = Some (Uploader.PutError params e, tokens', s') ->
    exists msg token s1,
      head (Msgs batch) = Some msg
      /\ Uploader.fetchToken fuel tokens msg s = Some (Ok token, tokens', s1)
      /\ cloudwatchlogs.PutLogEvents params s1 = (Err e, s')
      /\ cloudwatchlogs.SequenceToken params = token
      /\ (forall t, tokens !! Container msg = Some t -> tokens' = tokens /\ token = Some t)
      /\ forall t, tokens' !! Container msg = Some t ->
           forall (fuel2 : nat) (others : list CloudwatchBatch) (s2 : S)
                  (os : list Uploader.outcome) (tokens2 : gmap string string) (s3 : S),
             (forall b, In b others -> streamKey b ≠ Some (Container msg)) ->
             Uploader.Start fuel2 tokens' others s2 = Some (os, tokens2, s3) ->
             tokens2 !! Container msg = Some t
             /\ forall (fuel3 : nat) (next : CloudwatchBatch) (s4 : S),
                  streamKey next = Some (Container msg) ->
                  exists o tokens3 s5,
                    Uploader.Start_body fuel3 tokens2 next s4 = Some (o, tokens3, s5)
                    /\ Dispatcher.submittedToken o = Some (Some t).
Proof.
  intros S svc fuel tokens batch s params e tokens' s' H.
  unfold Uploader.Start_body in H.
  destruct (Msgs batch) as [|msg rest] eqn:Hm; [discriminate|].
  destruct (Uploader.fetchToken fuel tokens msg s) as [[[[token|e1] tokens1] s1]|] eqn:Hf;
    try discriminate.
  destruct (cloudwatchlogs.PutLogEvents _ s1) as [[next|e2] s2] eqn:Hp; [discriminate|].
  injection H as <- <- <- <-.
  exists msg, token, s1. split; [reflexivity|]. split; [exact Hf|].
  split; [exact Hp|]. split; [reflexivity|]. split.
  - intros t Ht. unfold Uploader.fetchToken in Hf. rewrite Ht in Hf.
    injection Hf as <- <- <-. split; reflexivity.
  - intros t Ht fuel2 others s3 os tokens2 s4 Hothers Hrun.
    assert (Hk : tokens2 !! Container msg = Some t).
    { rewrite <- Ht. exact (Start_other_keys fuel2 _ others _ _ _ _ _ Hothers Hrun). }
    split; [exact Hk|].
    intros fuel3 next s5 Hnext. unfold streamKey in Hnext.
    destruct (Msgs next) as [|msg2 rest2] eqn:Hm2; [discriminate|].
    simpl in Hnext. injection Hnext as Hkey.
    rewrite <- Hkey in Hk.
    destruct (Start_body_cached fuel3 tokens2 next msg2 rest2 t s5 Hm2 Hk)
      as (o & tokens3 & s6 & Hb & Hsub).
    exists o, tokens3, s6. split; [exact Hb|].
    unfold Dispatcher.submittedToken. rewrite Hsub. reflexivity.
Qed.

(** A cached token [tok7], a failed submission, then the next batch of
    the stream: it is submitted with [tok7]. *)
Lemma C6_failed_submission_witness :
  exists o tokens3 s5,
    Uploader.Start_body (svc := Fixtures.script)
      0 {["web" := "tok7"]} Dispatcher.webBatch Dispatcher.fetchThenPut
    = Some (o, tokens3, s5)
    /\ Dispatcher.submittedToken o = Some (Some "tok7").
Proof.
  assert (Hfail :
    Uploader.Start_body (svc := Fixtures.script)
      0 {["web" := "tok7"]} Dispatcher.webBatch Dispatcher.putFails
    = Some (Uploader.PutError
              (Uploader.putParams Dispatcher.webRecord Dispatcher.webBatch (Some "tok7"))
              "ThrottlingException",
            {["web" := "tok7"]},
            {| Fixtures.pending := [];
               Fixtures.calls :=
                 [Fixtures.PutLogEventsReq
                    (Uploader.putParams Dispatcher.webRecord Dispatcher.webBatch
                       (Some "tok7"))] |}))
    by (vm_compute; reflexivity).
  destruct (C6_failed_submission_keeps_token _ _ _ _ _ _ _ _ _ _ Hfail)
    as (msg & token & s1 & Hmsg & _ & _ & _ & _ & Hnext).
  injection Hmsg as <-.
  destruct (Hnext "tok7" eq_refl 0%nat [] Dispatcher.putFails [] {["web" := "tok7"]}
              Dispatcher.putFails) as [_ Hsub].
  - intros b [].
  - reflexivity.
  - exact (Hsub 0%nat Dispatcher.webBatch Dispatcher.fetchThenPut eq_refl).
Defined.

Section SequenceTokenOnScripts.

Import cloudwatchlogs Uploader Fixtures Dispatcher.

(** A pass over a round without matching streams creates the stream and
    starts [getSequenceToken] again on the rest of the script. *)
Lemma getSequenceToken_emptyRound fuel msg rest calls0 :
  getSequenceToken (Datatypes.S fuel) msg
    {| pending := (emptyRound msg ++ rest)%list; calls := calls0 |}
  = getSequenceToken fuel msg
      {| pending := rest; calls := (calls0 ++ emptyRoundCalls msg)%list |}.
Proof.
  unfold emptyRoundCalls.
  replace (calls0 ++ [DescribeLogGroupsReq (Group msg);
                      DescribeLogStreamsReq (Group msg) (Stream msg);
                      CreateLogStreamReq (Group msg) (Stream msg)])%list
    with (((calls0 ++ [DescribeLogGroupsReq (Group msg)])
             ++ [DescribeLogStreamsReq (Group msg) (Stream msg)])
            ++ [CreateLogStreamReq (Group msg) (Stream msg)])%list
    by (rewrite <- !app_assoc; reflexivity).
  reflexivity.
Qed.

Lemma getSequenceToken_emptyRounds n :
  forall fuel msg rest calls0,
    getSequenceToken (n + fuel) msg
      {| pending := (times n (emptyRound msg) ++ rest)%list; calls := calls0 |}
    = getSequenceToken fuel msg
        {| pending := rest; calls := (calls0 ++ times n (emptyRoundCalls msg))%list |}.
Proof.
  induction n as [|n IH]; intros fuel msg rest calls0.
  - simpl. rewrite app_nil_r. reflexivity.
  - cbn [times Nat.add]. rewrite <- app_assoc, getSequenceToken_emptyRound, IH.
    rewrite <- app_assoc. reflexivity.
Qed.

(** A pass over a round with exactly one matching stream returns its
    token. *)
Lemma getSequenceToken_found fuel msg ls rest calls0 :
  getSequenceToken (Datatypes.S fuel) msg
    {| pending := (lastRound msg [ls] ++ rest)%list; calls := calls0 |}
  = Some (Ok (UploadSequenceToken ls),
          {| pending := rest; calls := (calls0 ++ lastRoundCalls msg)%list |}).
Proof.
  unfold lastRoundCalls.
  replace (calls0 ++ [DescribeLogGroupsReq (Group msg);
                      DescribeLogStreamsReq (Group msg) (Stream msg)])%list
    with ((calls0 ++ [DescribeLogGroupsReq (Group msg)])
            ++ [DescribeLogStreamsReq (Group msg) (Stream msg)])%list
    by (rewrite <- !app_assoc; reflexivity).
  reflexivity.
Qed.

(** A pass over a round with more than one matching stream returns an
    error and makes no further call. *)
Lemma getSequenceToken_ambiguous fuel msg ls1 ls2 more rest calls0 :
  exists e,
    getSequenceToken (Datatypes.S fuel) msg
      {| pending := (lastRound msg (ls1 :: ls2 :: more) ++ rest)%list; calls := calls0 |}
    = Some (Err e,
            {| pending := rest; calls := (calls0 ++ lastRoundCalls msg)%list |}).
Proof.
  unfold lastRoundCalls.
  replace (calls0 ++ [DescribeLogGroupsReq (Group msg);
                      DescribeLogStreamsReq (Group msg) (Stream msg)])%list
    with ((calls0 ++ [DescribeLogGroupsReq (Group msg)])
            ++ [DescribeLogStreamsReq (Group msg) (Stream msg)])%list
    by (rewrite <- !app_assoc; reflexivity).
  exists (pretty (length (ls1 :: ls2 :: more)) +:+ " streams match group "
            +:+ Group msg +:+ ", stream " +:+ Stream msg +:+ "!").
  reflexivity.
Qed.

Lemma creations_rounds n msg rest :
  length (List.filter isCreateLogStream (times n (emptyRoundCalls msg) ++ rest))
  = (n + length (List.filter isCreateLogStream rest))%nat.
Proof.
  induction n as [|n IH]; [reflexivity|].
  cbn [times]. rewrite <- app_assoc. simpl. rewrite IH. reflexivity.
Qed.

Lemma listings_rounds n msg rest :
  length (List.filter isDescribeLogStreams (times n (emptyRoundCalls msg) ++ rest))
  = (n + length (List.filter isDescribeLogStreams rest))%nat.
Proof.
  induction n as [|n IH]; [reflexivity|].
  cbn [times]. rewrite <- app_assoc. simpl. rewrite IH. reflexivity.
Qed.

End SequenceTokenOnScripts.

Section GroupAmbiguity.

Import cloudwatchlogs Uploader.

Context {S : Type} {svc : Service S}.

(** More than one group in the listing: [groupExists] returns an error. *)
Lemma groupExists_ambiguous group s found s' :
  DescribeLogGroups group s = (Ok found, s') ->
  (1 < length found)%nat ->
  groupExists group s
  = Some (Err (pretty (length found) +:+ " groups match group " +:+ group +:+ "!"), s').
Proof.
  intros Hd Hn. unfold groupExists, bind, call. rewrite Hd. cbv zeta.
  destruct (Nat.ltb_spec 1 (length found)) as [_|Hle]; [reflexivity | lia].
Qed.

(** The error of [groupExists] is the error of [getSequenceToken]. *)
Lemma getSequenceToken_group_error fuel msg s e s' :
  groupExists (Group msg) s = Some (Err e, s') ->
  getSequenceToken (Datatypes.S fuel) msg s = Some (Err e, s').
Proof.
  intros Hg. cbn [getSequenceToken]. cbv zeta. unfold bind at 1. rewrite Hg. reflexivity.
Qed.

(** An error of the token fetch abandons the batch and leaves the token
    cache as it was. *)
Lemma Start_body_fetch_error fuel tokens batch msg rest s e s' :
  Msgs batch = msg :: rest ->
  tokens !! Container msg = None ->
  getSequenceToken fuel msg s = Some (Err e, s') ->
  Start_body fuel tokens batch s = Some (TokenError e, tokens, s').
Proof.
  intros Hm Hc Hf. unfold Start_body, fetchToken. rewrite Hm, Hc, Hf. reflexivity.
Qed.

End GroupAmbiguity.

Section PrefixListing.

Import Fixtures.

Lemma prefix_refl s : String.prefix s s = true.
Proof.
  induction s as [|c s IH]; [reflexivity|].
  simpl. destruct (ascii_dec c c) as [_|Hne]; [exact IH | congruence].
Qed.

(** Two different elements that pass a filter: the result has more than
    one element. *)
Lemma filter_two {A} (p : A -> bool) (l : list A) x y :
  In x l -> In y l -> x <> y -> p x = true -> p y = true ->
  (1 < length (List.filter p l))%nat.
Proof.
  intros Hx Hy Hne Hpx Hpy.
  assert (Hincl : incl [x; y] (List.filter p l)).
  { intros z [<-|[<-|[]]]; apply List.filter_In; split; assumption. }
  assert (Hnd : List.NoDup [x; y]).
  { constructor; [intros [H|[]]; congruence|]. constructor; [intros []|constructor]. }
  pose proof (List.NoDup_incl_length Hnd Hincl) as Hlen. simpl in Hlen. lia.
Qed.

(** The listing of the in-memory service for a group name that is a
    strict prefix of another group's name has more than one group. *)
Lemma describeLogGroups_prefix (s : logs) g g' :
  In g (groups s) -> In g' (groups s) -> g <> g' ->
  strings.HasPrefix g' g = true ->
  exists found, describeLogGroups g s = (Ok found, s) /\ (1 < length found)%nat.
Proof.
  intros Hg Hg' Hne Hpre. unfold describeLogGroups.
  eexists. split; [reflexivity|]. rewrite length_map.
  apply (filter_two _ (groups s) g g'); try assumption.
  apply prefix_refl.
Qed.

End PrefixListing.

(** C10.  Whenever the listing of the groups with the group name as prefix
    has more than one group, [groupExists] returns an error, the token
    fetch fails with it, and the batch is abandoned with the token cache
    untouched.  So on a service that lists the groups by prefix, a batch
    whose group name is a strict prefix of the name of another group fails
    the token fetch, although the group itself exists. *)
Theorem C10_group_prefix_ambiguity :
  (forall (S : Type) (svc : cloudwatchlogs.Service S) (fuel : nat)
          (tokens : gmap string string) (batch : CloudwatchBatch)
          (msg : CloudwatchMessage) (rest : list CloudwatchMessage)
          (s : S) (found : list cloudwatchlogs.LogGroup) (s' : S),
      Msgs batch = msg :: rest ->
      tokens !! Container msg = None ->
      cloudwatchlogs.DescribeLogGroups (Group msg) s = (Ok found, s') ->
      (1 < length found)%nat ->
      exists e,
        Uploader.groupExists (Group msg) s = Some (Err e, s')
        /\ Uploader.getSequenceToken (Datatypes.S fuel) msg s = Some (Err e, s')
        /\ Uploader.Start_body (Datatypes.S fuel) tokens batch s
           = Some (Uploader.TokenError e, tokens, s'))
  /\ (forall (fuel : nat) (tokens : gmap string string) (batch : CloudwatchBatch)
             (msg : CloudwatchMessage) (rest : list CloudwatchMessage)
             (s : Fixtures.logs) (other : string),
        Msgs batch = msg :: rest ->
        tokens !! Container msg = None ->
        In (Group msg) (Fixtures.groups s) ->
        In other (Fixtures.groups s) ->
        Group msg <> other ->
        strings.HasPrefix other (Group msg) = true ->
        exists e,
          Uploader.getSequenceToken (svc := Fixtures.memory) (Datatypes.S fuel) msg s
          = Some (Err e, s)
          /\ Uploader.Start_body (svc := Fixtures.memory) (Datatypes.S fuel) tokens batch s
             = Some (Uploader.TokenError e, tokens, s)).
Proof.
  assert (Hgen :
    forall (S : Type) (svc : cloudwatchlogs.Service S) (fuel : nat)
           (tokens : gmap string string) (batch : CloudwatchBatch)
           (msg : CloudwatchMessage) (rest : list CloudwatchMessage)
           (s : S) (found : list cloudwatchlogs.LogGroup) (s' : S),
      Msgs batch = msg :: rest ->
      tokens !! Container msg = None ->
      cloudwatchlogs.DescribeLogGroups (Group msg) s = (Ok found, s') ->
      (1 < length found)%nat ->
      exists e,
        Uploader.groupExists (Group msg) s = Some (Err e, s')
        /\ Uploader.getSequenceToken (Datatypes.S fuel) msg s = Some (Err e, s')
        /\ Uploader.Start_body (Datatypes.S fuel) tokens batch s
           = Some (Uploader.TokenError e, tokens, s')).
  { intros S svc fuel tokens batch msg rest s found s' Hm Hc Hd Hn.
    pose proof (groupExists_ambiguous (Group msg) s found s' Hd Hn) as Hg.
    pose proof (getSequenceToken_group_error fuel msg s _ s' Hg) as Hf.
    eexists. split; [exact Hg|]. split; [exact Hf|].
    exact (Start_body_fetch_error _ tokens batch msg rest s _ s' Hm Hc Hf). }
  split; [exact Hgen|].
  intros fuel tokens batch msg rest s other Hm Hc Hin Hother Hne Hpre.
  destruct (describeLogGroups_prefix s (Group msg) other Hin Hother Hne Hpre)
    as (found & Hd & Hn).
  destruct (Hgen _ Fixtures.memory fuel tokens batch msg rest s found s Hm Hc Hd Hn)
    as (e & _ & Hf & Hb).
  exists e. split; assumption.
Qed.

(** The groups [app] and [app-staging] exist; a batch for the group [app]
    is abandoned. *)
Lemma C10_group_prefix_witness :
  exists e,
    Uploader.getSequenceToken (svc := Fixtures.memory) 1 Dispatcher.webRecord
      Dispatcher.twoGroups
    = Some (Err e, Dispatcher.twoGroups)
    /\ Uploader.Start_body (svc := Fixtures.memory) 1 ∅ Dispatcher.webBatch
         Dispatcher.twoGroups
       = Some (Uploader.TokenError e, ∅, Dispatcher.twoGroups).
Proof.
  destruct C10_group_prefix_ambiguity as [_ H].
  apply (H 0%nat ∅ Dispatcher.webBatch Dispatcher.webRecord [] Dispatcher.twoGroups
           "app-staging").
  - reflexivity.
  - reflexivity.
  - simpl. left. reflexivity.
  - simpl. right. left. reflexivity.
  - discriminate.
  - reflexivity.
Defined.

Section TerminationOnScripts.

Import cloudwatchlogs Uploader Fixtures Dispatcher.

(** A call consumes at most one response of the script, and exactly one
    when it succeeds. *)
Lemma answer_shrinks {A} req (pick : response -> option (result A)) s r s' :
  answer req pick s = (r, s') ->
  (length (pending s') <= length (pending s))%nat
  /\ forall a, r = Ok a -> (length (pending s') < length (pending s))%nat.
Proof.
  unfold answer. destruct (pending s) as [|r0 rest]; intros [= <- <-]; simpl.
  - split; [lia | discriminate].
  - split; [lia | intros; lia].
Qed.

Ltac call_step :=
  match goal with
  | |- context [answer ?req ?pick ?s] =>
      let H := fresh "Hcall" in
      let Hs := fresh "Hshrink" in
      destruct (answer req pick s) as [[?|?] ?] eqn:H;
      pose proof (answer_shrinks _ _ _ _ _ H) as Hs;
      destruct Hs as [? Hs];
      try (specialize (Hs _ eq_refl))
  end.

(** On a script, [getSequenceToken] returns as soon as the fuel exceeds
    the number of responses left: every retry has consumed the response to
    a stream creation. *)
Lemma getSequenceToken_returns_on_scripts fuel :
  forall msg (s : scripted),
    (length (pending s) < fuel)%nat ->
    exists r s', getSequenceToken fuel msg s = Some (r, s').
Proof.
  induction fuel as [|fuel IH]; intros msg s Hlen; [lia|].
  cbn [getSequenceToken]. cbv zeta.
  unfold groupExists, createGroup, createStream.
  unfold bind, call, ret, fail.
  cbn [DescribeLogGroups DescribeLogStreams CreateLogGroup CreateLogStream script].
  call_step; [|eauto].
  destruct (1 <? length _)%nat; [eauto|].
  destruct (length _ <? 1)%nat.
  - call_step; [|eauto].
    call_step; [|eauto].
    destruct (1 <? length _)%nat; [eauto|].
    match goal with |- context [match ?l with [] => _ | _ :: _ => _ end] =>
      destruct l as [|ls more] end; [|eauto].
    call_step; [|eauto].
    apply IH. lia.
  - call_step; [|eauto].
    destruct (1 <? length _)%nat; [eauto|].
    match goal with |- context [match ?l with [] => _ | _ :: _ => _ end] =>
      destruct l as [|ls more] end; [|eauto].
    call_step; [|eauto].
    apply IH. lia.
Qed.

End TerminationOnScripts.


(** A destination the service does not know yet: the round creates the
    group and the stream, submits without a token and caches the token the
    service answers; the next batch of the stream is submitted with it. *)
Lemma fresh_destination_is_created :
  exists s1 s2,
    Uploader.Start_body (svc := Fixtures.memory) 2 ∅ Dispatcher.webBatch Dispatcher.noLogs
    = Some (Uploader.Put200
              (Uploader.putParams Dispatcher.webRecord Dispatcher.webBatch None)
              (Some "0"),
            {["web" := "0"]}, s1)
    /\ Fixtures.groups s1 = ["app"]
    /\ Fixtures.streams s1 = [("app", "web", Some "0")]
    /\ Uploader.Start_body (svc := Fixtures.memory) 0 {["web" := "0"]} Dispatcher.webBatch s1
       = Some (Uploader.Put200
                 (Uploader.putParams Dispatcher.webRecord Dispatcher.webBatch (Some "0"))
                 (Some "1"),
               {["web" := "1"]}, s2).
Proof.
  eexists _, _. split; [vm_compute; reflexivity|].
  split; [reflexivity|]. split; [reflexivity|]. vm_compute. reflexivity.
Qed.

Section LookupOnForgetfulService.

Import cloudwatchlogs Uploader Fixtures.

(** On the service that never lists the created stream, the lookup uses
    up any fuel. *)
Lemma getSequenceToken_never_returns_when_forgotten fuel msg :
  getSequenceToken (svc := forgetful) fuel msg tt = None.
Proof.
  induction fuel as [|fuel IH]; [reflexivity|].
  cbn [getSequenceToken]. cbv zeta.
  unfold groupExists, createGroup, createStream.
  unfold bind, call, ret, fail. simpl. exact IH.
Qed.

End LookupOnForgetfulService.




(** * Further properties of the code *)

(** ** The accumulator: where the records go *)

Section RecordFlow.

Import Batcher Accumulator Flow.

Lemma filter_fromContainer_all k (msgs : list CloudwatchMessage) :
  (forall m, In m msgs -> Container m = k) ->
  List.filter (fromContainer k) msgs = msgs.
Proof.
  induction msgs as [|m msgs IH]; intros Hall; [reflexivity|].
  simpl. unfold fromContainer at 1.
  rewrite bool_decide_eq_true_2 by (apply Hall; left; reflexivity).
  rewrite IH; [reflexivity|]. intros m' Hin. apply Hall. right. exact Hin.
Qed.

Lemma filter_fromContainer_none k k' (msgs : list CloudwatchMessage) :
  k' <> k -> (forall m, In m msgs -> Container m = k') ->
  List.filter (fromContainer k) msgs = [].
Proof.
  intros Hne. induction msgs as [|m msgs IH]; intros Hall; [reflexivity|].
  simpl. unfold fromContainer at 1.
  rewrite bool_decide_eq_false_2.
  - apply IH. intros m' Hin. apply Hall. right. exact Hin.
  - rewrite (Hall m (or_introl eq_refl)). exact Hne.
Qed.

Lemma recordsOf_app k o1 o2 :
  recordsOf k (o1 ++ o2) = (recordsOf k o1 ++ recordsOf k o2)%list.
Proof. unfold recordsOf. rewrite flat_map_app, List.filter_app. reflexivity. Qed.

(** The records of [k] in a list of batches filed under different
    containers are those of the batch filed under [k]. *)
Lemma recordsOf_filed k (l : list (string * CloudwatchBatch)) :
  NoDup l.*1 ->
  (forall i b, In (i, b) l -> forall m, In m (Msgs b) -> Container m = i) ->
  recordsOf k l.*2
  = Msgs (default NewCloudwatchBatch ((list_to_map l : gmap string CloudwatchBatch) !! k)).
Proof.
  induction l as [|[i b] l IH]; intros Hnd Hfiled; [reflexivity|].
  apply NoDup_cons in Hnd. destruct Hnd as [Hi Hnd].
  change (((i, b) :: l).*2) with (b :: l.*2).
  change (b :: l.*2) with ([b] ++ l.*2)%list. rewrite recordsOf_app.
  rewrite IH; [|exact Hnd | intros i' b' Hin; apply Hfiled; right; exact Hin].
  unfold recordsOf at 1. simpl flat_map. rewrite app_nil_r.
  simpl list_to_map.
  destruct (decide (i = k)) as [->|Hne].
  - rewrite lookup_insert_eq. simpl default.
    rewrite (not_elem_of_list_to_map_1 l k Hi). simpl. rewrite app_nil_r.
    apply filter_fromContainer_all. apply (Hfiled k b). left. reflexivity.
  - rewrite lookup_insert_ne by assumption.
    rewrite (filter_fromContainer_none k i (Msgs b) Hne); [reflexivity|].
    apply (Hfiled i b). left. reflexivity.
Qed.

(** A tick sends the open batch of [k] and no other record of [k]. *)
Lemma recordsOf_tick k batches :
  keyed batches -> recordsOf k (map_to_list batches).*2 = held k batches.
Proof.
  intros Hk. rewrite recordsOf_filed.
  - rewrite list_to_map_to_list. reflexivity.
  - apply NoDup_fst_map_to_list.
  - intros i b Hin. apply (Hk i b).
    apply elem_of_map_to_list, list_elem_of_In. exact Hin.
Qed.

(** One round of [Start] neither loses nor repeats a record of [k]. *)
Lemma Start_body_flow k batches ev :
  keyed batches ->
  (recordsOf k (Start_body batches ev).2 ++ held k (Start_body batches ev).1)%list
  = (held k batches ++ List.filter (fromContainer k) (inputs [ev]))%list.
Proof.
  intros Hk. destruct ev as [msg|].
  - rewrite Start_body_Input. cbv zeta.
    change (List.filter (fromContainer k) (inputs [Input msg]))
      with (if fromContainer k msg then [msg] else []).
    assert (Hcur : forall m,
               In m (Msgs (default NewCloudwatchBatch (batches !! Container msg))) ->
               Container m = Container msg).
    { destruct (batches !! Container msg) as [b|] eqn:Hb; simpl.
      - apply (Hk _ _ Hb).
      - intros m []. }
    destruct (decide (Container msg = k)) as [Hc|Hc].
    + replace (fromContainer k msg) with true
        by (symmetry; apply bool_decide_eq_true_2; exact Hc).
      subst k.
      destruct (MAX_BATCH_SIZE <? _); cbn [fst snd]; unfold held;
        rewrite lookup_insert_eq; simpl.
      * unfold recordsOf. simpl. rewrite app_nil_r.
        rewrite (filter_fromContainer_all _ _ Hcur). reflexivity.
      * reflexivity.
    + replace (fromContainer k msg) with false
        by (symmetry; apply bool_decide_eq_false_2; exact Hc).
      rewrite app_nil_r.
      destruct (MAX_BATCH_SIZE <? _); cbn [fst snd]; unfold held;
        rewrite lookup_insert_ne by assumption.
      * unfold recordsOf. simpl. rewrite app_nil_r.
        rewrite (filter_fromContainer_none k _ _ Hc Hcur). reflexivity.
      * reflexivity.
  - cbn [Start_body fst snd]. rewrite (recordsOf_tick k batches Hk).
    unfold held. rewrite lookup_empty. simpl. rewrite !app_nil_r. reflexivity.
Qed.

Lemma Start_keyed events :
  forall batches, keyed batches -> keyed (Start batches events).1.
Proof.
  induction events as [|ev rest IH]; intros batches Hk; [exact Hk|].
  rewrite Start_cons.
  pose proof (Start_body_keyed batches ev Hk) as Hk1.
  destruct (Start_body batches ev) as [batches1 out1].
  specialize (IH batches1 Hk1).
  destruct (Start batches1 rest) as [batches2 out2]. exact IH.
Qed.

Lemma Start_flow k events :
  forall batches,
    keyed batches ->
    (recordsOf k (Start batches events).2 ++ held k (Start batches events).1)%list
    = (held k batches ++ List.filter (fromContainer k) (inputs events))%list.
Proof.
  induction events as [|ev rest IH]; intros batches Hk.
  - simpl. rewrite app_nil_r. reflexivity.
  - rewrite Start_cons.
    pose proof (Start_body_flow k batches ev Hk) as Hstep.
    pose proof (Start_body_keyed batches ev Hk) as Hk1.
    destruct (Start_body batches ev) as [batches1 out1].
    specialize (IH batches1 Hk1).
    destruct (Start batches1 rest) as [batches2 out2].
    cbn [fst snd] in *.
    rewrite recordsOf_app, <- app_assoc, IH, app_assoc, Hstep.
    change (ev :: rest) with ([ev] ++ rest)%list.
    unfold inputs. rewrite flat_map_app, List.filter_app, app_assoc. reflexivity.
Qed.

Lemma keyed_empty : keyed ∅.
Proof. intros k b. rewrite lookup_empty. discriminate. Qed.

(** Every batch a round sends holds records of one container. *)
Lemma Start_body_oneContainer batches ev :
  keyed batches -> Forall oneContainer (Start_body batches ev).2.
Proof.
  intros Hk. destruct ev as [msg|].
  - rewrite Start_body_Input. cbv zeta.
    destruct (MAX_BATCH_SIZE <? _); cbn [snd]; [|constructor].
    constructor; [|constructor]. exists (Container msg).
    apply List.Forall_forall. intros m Hin.
    destruct (batches !! Container msg) as [b|] eqn:Hb; simpl in Hin.
    + apply (Hk _ _ Hb m Hin).
    + destruct Hin.
  - simpl. apply List.Forall_forall. intros b Hb.
    apply list_elem_of_In, list_elem_of_fmap in Hb.
    destruct Hb as ([k b'] & -> & Hb). apply elem_of_map_to_list in Hb.
    exists k. apply List.Forall_forall. intros m Hin. apply (Hk k b' Hb m Hin).
Qed.

Lemma Start_oneContainer events :
  forall batches, keyed batches -> Forall oneContainer (Start batches events).2.
Proof.
  induction events as [|ev rest IH]; intros batches Hk; [constructor|].
  rewrite Start_cons.
  pose proof (Start_body_oneContainer batches ev Hk) as H1.
  pose proof (Start_body_keyed batches ev Hk) as Hk1.
  destruct (Start_body batches ev) as [batches1 out1].
  specialize (IH batches1 Hk1).
  destruct (Start batches1 rest) as [batches2 out2].
  cbn [snd] in *. apply Forall_app. split; assumption.
Qed.

End RecordFlow.

(** X1.  For every sequence of records and timer ticks and every
    container, the records of the container in the batches sent, in the
    order the batches were sent, followed by the records of its open
    batch, are the records the container delivered, in arrival order:
    the accumulator loses, repeats and reorders nothing. *)
Theorem X1_accumulator_keeps_every_record_in_order :
  forall (events : list Batcher.event) (k : string),
    (Flow.recordsOf k (Batcher.Start ∅ events).2
       ++ Flow.held k (Batcher.Start ∅ events).1)%list
    = List.filter (Accumulator.fromContainer k) (Flow.inputs events).
Proof.
  intros events k. rewrite (Start_flow k events ∅ keyed_empty).
  unfold Flow.held. rewrite lookup_empty. reflexivity.
Qed.

(** X2.  Every batch the accumulator sends holds records of one container
    only. *)
Theorem X2_batches_hold_one_container :
  forall (events : list Batcher.event),
    Forall Flow.oneContainer (Batcher.Start ∅ events).2.
Proof. intros events. apply Start_oneContainer, keyed_empty. Qed.

(** X3.  When no record is over [MAX_BATCH_SIZE] on its own, every batch
    the accumulator sends, by overflow or by timer tick, has at least one
    record. *)
Theorem X3_no_empty_batch_when_records_within_max :
  forall (events : list Batcher.event),
    Accumulator.inputsFit events ->
    Flow.withinMax events ->
    Forall (fun b => Msgs b <> []) (Batcher.Start ∅ events).2.
Proof.
  intros events Hfit Hmax. apply List.Forall_forall. intros b Hb.
  exact (Start_sends_records events ∅ openOk_empty Hfit Hmax b Hb).
Qed.

(** Records of two containers with two ticks: four batches, none empty. *)
Lemma X3_no_empty_batch_witness :
  Forall (fun b => Msgs b <> []) (Batcher.Start ∅ Flow.busy).2.
Proof.
  apply X3_no_empty_batch_when_records_within_max.
  - intros msg Hin. simpl in Hin.
    destruct Hin as [H|[H|[H|[H|[H|[H|[H|[]]]]]]]]; inversion H;
      vm_compute; reflexivity.
  - intros msg Hin. simpl in Hin.
    destruct Hin as [H|[H|[H|[H|[H|[H|[H|[]]]]]]]]; inversion H;
      vm_compute; discriminate.
Defined.

Section TickFlush.

Import Batcher Accumulator Flow.

(** Among batches filed under different containers, each starting with a
    record of its container, the batches of the stream [k] are the one
    filed under [k]. *)
Lemma ofStream_filed k (l : list (string * CloudwatchBatch)) :
  NoDup l.*1 ->
  (forall i b, In (i, b) l -> streamKey b = Some i) ->
  List.filter (ofStream k) l.*2
  = match (list_to_map l : gmap string CloudwatchBatch) !! k with
    | Some b => [b]
    | None => []
    end.
Proof.
  induction l as [|[i b] l IH]; intros Hnd Hfiled; [reflexivity|].
  apply NoDup_cons in Hnd. destruct Hnd as [Hi Hnd].
  change (((i, b) :: l).*2) with (b :: l.*2). simpl List.filter.
  rewrite IH; [|exact Hnd | intros i' b' Hin; apply Hfiled; right; exact Hin].
  simpl list_to_map. unfold ofStream.
  rewrite (Hfiled i b (or_introl eq_refl)).
  destruct (decide (i = k)) as [->|Hne].
  - rewrite bool_decide_eq_true_2 by reflexivity.
    rewrite lookup_insert_eq, (not_elem_of_list_to_map_1 l k Hi). reflexivity.
  - rewrite bool_decide_eq_false_2 by congruence.
    rewrite lookup_insert_ne by assumption. reflexivity.
Qed.

(** A tick sends, for the stream [k], exactly the open batch of [k]. *)
Lemma ofStream_tick k batches :
  keyed batches -> openOk batches ->
  List.filter (ofStream k) (map_to_list batches).*2
  = match batches !! k with Some b => [b] | None => [] end.
Proof.
  intros Hk Hok. rewrite ofStream_filed.
  - rewrite list_to_map_to_list. reflexivity.
  - apply NoDup_fst_map_to_list.
  - intros i b Hin. apply list_elem_of_In, elem_of_map_to_list in Hin.
    destruct (Hok i b Hin) as (_ & _ & Hne & _).
    unfold streamKey. destruct (Msgs b) as [|m rest] eqn:Hm; [congruence|].
    simpl. f_equal. apply (Hk i b Hin). rewrite Hm. left. reflexivity.
Qed.

Lemma Start_tick batches :
  Start batches [Timer] = (∅, (map_to_list batches).*2).
Proof. simpl. rewrite app_nil_r. reflexivity. Qed.

End TickFlush.

(** X4.  Records of any containers arrive, then one timer tick.  If the
    records of the container [k] together are within [MAX_BATCH_SIZE],
    the tick sends them as exactly one batch, in arrival order, and
    leaves no batch open. *)
Theorem X4_tick_flushes_small_stream_as_one_batch :
  forall (msgs : list CloudwatchMessage) (k : string),
    (forall m, In m msgs -> Accumulator.fits m) ->
    List.filter (Accumulator.fromContainer k) msgs <> [] ->
    Accumulator.totalSize (List.filter (Accumulator.fromContainer k) msgs)
    <= Batcher.MAX_BATCH_SIZE ->
    (Batcher.Start ∅ (map Batcher.Input msgs ++ [Batcher.Timer])).1 = ∅
    /\ List.filter (Accumulator.ofStream k)
         (Batcher.Start ∅ (map Batcher.Input msgs ++ [Batcher.Timer])).2
       = [Accumulator.batchOf (List.filter (Accumulator.fromContainer k) msgs)].
Proof.
  intros msgs k Hfit Hne Hle.
  set (mine := List.filter (Accumulator.fromContainer k) msgs) in *.
  assert (Hmine : forall m, In m mine -> Container m = k /\ Accumulator.fits m).
  { intros m Hin. apply List.filter_In in Hin. destruct Hin as [Hin Hc].
    split; [|apply Hfit, Hin].
    unfold Accumulator.fromContainer in Hc. apply bool_decide_eq_true in Hc. exact Hc. }
  assert (Hinputs : Accumulator.inputsFit (map Batcher.Input msgs)).
  { intros msg Hin. apply List.in_map_iff in Hin. destruct Hin as (m & [= ->] & Hin).
    apply Hfit, Hin. }
  destruct (Start_local k msgs ∅ ∅ keyed_empty eq_refl) as [Hl Ho].
  fold mine in Hl, Ho.
  rewrite (Start_open k mine ∅ (lookup_empty k) Hne Hmine Hle) in Hl, Ho.
  cbn [fst snd] in Hl, Ho. rewrite lookup_insert_eq in Hl. simpl in Ho.
  pose proof (Start_keyed (map Batcher.Input msgs) ∅ keyed_empty) as Hk1.
  destruct (Start_invariant (map Batcher.Input msgs) ∅ openOk_empty Hinputs) as [Hok1 _].
  rewrite Start_app.
  destruct (Batcher.Start ∅ (map Batcher.Input msgs)) as [batches1 out1].
  rewrite Start_tick. cbn [fst snd] in *. split; [reflexivity|].
  rewrite List.filter_app, Ho, app_nil_l.
  rewrite (ofStream_tick k batches1 Hk1 Hok1), Hl. reflexivity.
Qed.

(** Four short records of [web] among records of [db], then a tick. *)
Lemma X4_tick_flushes_witness :
  (Batcher.Start ∅ (map Batcher.Input Flow.trickle ++ [Batcher.Timer])).1 = ∅
  /\ List.filter (Accumulator.ofStream "web")
       (Batcher.Start ∅ (map Batcher.Input Flow.trickle ++ [Batcher.Timer])).2
     = [Accumulator.batchOf
          (List.filter (Accumulator.fromContainer "web") Flow.trickle)].
Proof.
  apply (X4_tick_flushes_small_stream_as_one_batch Flow.trickle "web").
  - intros m Hin. simpl in Hin.
    destruct Hin as [H|[H|[H|[H|[H|[H|[]]]]]]]; subst m; vm_compute; reflexivity.
  - vm_compute. discriminate.
  - vm_compute. discriminate.
Defined.

(** ** The timer and the debug log *)

Section DelayFacts.

Lemma Atoi_range s v : strconv.Atoi s = Ok v -> - 2 ^ 63 <= v < 2 ^ 63.
Proof.
  unfold strconv.Atoi. destruct s as [|c rest]; [discriminate|].
  cbv zeta.
  destruct (if Ascii.eqb c "-" || Ascii.eqb c "+" then rest else String c rest);
    [discriminate|].
  destruct (strconv.digits _ 0) as [n|]; [|discriminate].
  destruct ((- 2 ^ 63 <=? _) && (_ <? 2 ^ 63)) eqn:Hr; [|discriminate].
  intros [= <-]. apply andb_true_iff in Hr. destruct Hr as [H1 H2].
  apply Z.leb_le in H1. apply Z.ltb_lt in H2. lia.
Qed.

End DelayFacts.

(** X5.  The delay between two ticks is read from the process variable
    [DELAY] when it is not empty, otherwise from the route option [DELAY],
    otherwise it is 4 seconds; it is 4 seconds whenever the text so
    selected is not a decimal integer that fits [int]; and it always fits
    [int]. *)
Theorem X5_delay_selection :
  forall (route : router.Route) (environ : gmap string string),
    Batcher.delayOf route environ
    = match strconv.Atoi
              (Resolver.firstPresent (Resolver.variable environ "DELAY")
                                     (router.Options route !! "DELAY")
                                     None "4")
      with
      | Ok delay => delay
      | Err _ => 4
      end
    /\ - 2 ^ 63 <= Batcher.delayOf route environ < 2 ^ 63.
Proof.
  intros route environ. split; [|
    unfold Batcher.delayOf;
    destruct (strconv.Atoi _) as [d|e] eqn:Ha;
      [exact (Atoi_range _ d Ha) | unfold Batcher.DEFAULT_DELAY; lia]].
  unfold Batcher.delayOf, Resolver.firstPresent, Resolver.variable, Adapter.Getenv.
  change (strconv.Itoa Batcher.DEFAULT_DELAY) with "4".
  destruct (environ !! "DELAY") as [v|]; simpl default.
  - destruct (decide (v = "")) as [->|Hne].
    + rewrite (bool_decide_eq_false_2 ("" ≠ "")) by (intros H; now apply H).
      rewrite (bool_decide_eq_true_2 ("" = "")) by reflexivity.
      destruct (router.Options route !! "DELAY"); reflexivity.
    + rewrite (bool_decide_eq_true_2 (v ≠ "")) by assumption.
      rewrite (bool_decide_eq_false_2 (v = "")) by assumption. reflexivity.
  - rewrite (bool_decide_eq_false_2 ("" ≠ "")) by (intros H; now apply H).
    destruct (router.Options route !! "DELAY"); reflexivity.
Qed.

Section SleepDuration.

Import Batcher.

Lemma int64_exact z : - 2 ^ 63 <= z < 2 ^ 63 -> int64 z = z.
Proof.
  intros Hz. unfold int64. rewrite Z.mod_small by lia. lia.
Qed.

End SleepDuration.

(** X6.  [RunTimer] does not check the sign of the delay: for every delay
    of at most 9223372036 seconds in absolute value the timer sleeps that
    many seconds exactly, so a delay of zero or less makes [time.Sleep]
    return at once and the ticks follow each other without pause. *)
Theorem X6_sleep_duration :
  forall (delay : Z),
    - 9223372036 <= delay <= 9223372036 ->
    Batcher.sleepNanos delay = delay * 1000000000
    /\ (0 < Batcher.sleepNanos delay <-> 0 < delay).
Proof.
  intros delay Hd. unfold Batcher.sleepNanos.
  rewrite int64_exact by lia. split; [reflexivity | lia].
Qed.

(** The route option [DELAY=0]: the delay is zero and so is the sleep. *)
Lemma X6_sleep_duration_witness :
  Batcher.sleepNanos
    (Batcher.delayOf {| router.Address := "us-east-1";
                        router.Options := {["DELAY" := "0"]} |} ∅)
  = Batcher.delayOf {| router.Address := "us-east-1";
                       router.Options := {["DELAY" := "0"]} |} ∅ * 1000000000
  /\ (0 < Batcher.sleepNanos
            (Batcher.delayOf {| router.Address := "us-east-1";
                                router.Options := {["DELAY" := "0"]} |} ∅)
      <-> 0 < Batcher.delayOf {| router.Address := "us-east-1";
                                 router.Options := {["DELAY" := "0"]} |} ∅).
Proof.
  apply X6_sleep_duration. vm_compute. split; discriminate.
Defined.

Section StringFacts.

Lemma string_length_app (a b : string) :
  String.length (a +:+ b) = (String.length a + String.length b)%nat.
Proof. induction a as [|c a IH]; simpl; [reflexivity | rewrite IH; reflexivity]. Qed.

Lemma substring_app_r (a b : string) n m :
  String.substring (String.length a + n) m (a +:+ b) = String.substring n m b.
Proof. induction a as [|c a IH]; simpl; [reflexivity | exact IH]. Qed.

Lemma substring_full (s : string) :
  String.substring 0 (String.length s) s = s.
Proof. induction s as [|c s IH]; simpl; [reflexivity | rewrite IH; reflexivity]. Qed.

Lemma string_app_assoc (a b c : string) : (a +:+ b) +:+ c = a +:+ (b +:+ c).
Proof.
  induction a as [|x a IH]; [reflexivity|].
  change (String x ((a +:+ b) +:+ c) = String x (a +:+ (b +:+ c))).
  rewrite IH. reflexivity.
Qed.

Lemma HasPrefix_app (p s : string) : strings.HasPrefix (p +:+ s) p = true.
Proof.
  unfold strings.HasPrefix. induction p as [|c p IH]; simpl.
  - destruct s; reflexivity.
  - destruct (ascii_dec c c) as [_|Hne]; [exact IH | congruence].
Qed.

Lemma HasSuffix_app (s suffix : string) : strings.HasSuffix (s +:+ suffix) suffix = true.
Proof.
  unfold strings.HasSuffix. rewrite string_length_app.
  apply andb_true_iff. split; [apply Nat.leb_le; lia|].
  replace (String.length s + String.length suffix - String.length suffix)%nat
    with (String.length s + 0)%nat by lia.
  rewrite substring_app_r, substring_full. apply String.eqb_refl.
Qed.

(** Whether a text ends with a given byte does not depend on what stands
    before the text, unless the text is empty. *)
Lemma HasSuffix_byte_app (p t : string) (c : ascii) :
  t <> EmptyString ->
  strings.HasSuffix (p +:+ t) (String c EmptyString)
  = strings.HasSuffix t (String c EmptyString).
Proof.
  intros Hne. unfold strings.HasSuffix. rewrite string_length_app.
  assert (Hlen : (1 <= String.length t)%nat).
  { destruct t; [congruence | simpl; lia]. }
  simpl String.length.
  replace (String.length p + String.length t - 1)%nat
    with (String.length p + (String.length t - 1))%nat by lia.
  rewrite substring_app_r.
  destruct (Nat.leb_spec 1 (String.length p + String.length t)); [|lia].
  destruct (Nat.leb_spec 1 (String.length t)); [|lia]. reflexivity.
Qed.

End StringFacts.

(** X7.  The uploader logs nothing unless the route has an option [DEBUG]
    (with any value, the empty one too) or the process variable [DEBUG] is
    not empty.  When it logs, the line is the text after the prefix
    [cloudwatch: ], with a newline added exactly when the text does not
    end with one. *)
Theorem X7_debug_log_lines :
  forall (route : router.Route) (environ : gmap string string) (text : string),
    let newline := String "010" EmptyString in
    let line := if strings.HasSuffix text newline
                then "cloudwatch: " +:+ text
                else "cloudwatch: " +:+ text +:+ newline in
    (Uploader.debugSetOf route environ = false
     <-> router.Options route !! "DEBUG" = None /\ Adapter.Getenv environ "DEBUG" = "")
    /\ Uploader.log false text = None
    /\ Uploader.log true text = Some line
    /\ strings.HasPrefix line "cloudwatch: " = true
    /\ strings.HasSuffix line newline = true.
Proof.
  intros route environ text newline line. subst line newline.
  assert (Hlog : Uploader.log true text
                 = Some (if strings.HasSuffix text (String "010" EmptyString)
                         then "cloudwatch: " +:+ text
                         else "cloudwatch: " +:+ text +:+ String "010" EmptyString)).
  { unfold Uploader.log. cbv zeta.
    destruct (decide (text = EmptyString)) as [->|Hne]; [reflexivity|].
    rewrite (HasSuffix_byte_app "cloudwatch: " text "010" Hne).
    destruct (strings.HasSuffix text (String "010" EmptyString)); simpl negb; cbv iota.
    - reflexivity.
    - rewrite string_app_assoc. reflexivity. }
  split; [|split; [reflexivity|split; [exact Hlog|]]].
  - unfold Uploader.debugSetOf. cbv zeta. rewrite orb_false_iff.
    rewrite !bool_decide_eq_false. split.
    + intros [H1 H2]. split.
      * destruct (router.Options route !! "DEBUG") as [v|]; [|reflexivity].
        exfalso. apply H1. eexists. reflexivity.
      * destruct (decide (Adapter.Getenv environ "DEBUG" = "")) as [He|He];
          [exact He | contradiction].
    + intros [H1 H2]. split.
      * rewrite H1. intros [v Hv]. discriminate.
      * intros H. apply H. exact H2.
  - destruct (strings.HasSuffix text (String "010" EmptyString)) eqn:Hs.
    + split; [apply HasPrefix_app|].
      destruct (decide (text = EmptyString)) as [->|Hne]; [discriminate|].
      rewrite (HasSuffix_byte_app "cloudwatch: " text "010" Hne).
      exact Hs.
    + split; [apply HasPrefix_app|].
      rewrite <- string_app_assoc. apply HasSuffix_app.
Qed.

(** ** The resolver: what is forwarded *)

Section Forwarding.

Import Adapter Resolver Delivery.

Context (environ : gmap string string).
Context {engine : TemplateEngine}.
Context {D : Type} {client : docker.Client D}.

(** One record: it is forwarded with its payload, clock reading and
    container key, or its inspection failed and it is dropped. *)
Lemma Stream_body_forwards a now m d :
  let effs := (Stream_body environ a now m d).2 in
  (failures effs = 0%nat /\ map carried (sent effs) = [expected (now, m)])
  \/ (failures effs = 1%nat /\ sent effs = []).
Proof.
  unfold Stream_body.
  destruct (bool_decide _ || bool_decide _).
  - destruct (docker.InspectContainer (docker.ID (router.Container m)) d)
      as [[containerData|e] d'].
    + left. split; reflexivity.
    + right. split; reflexivity.
  - left. split; reflexivity.
Qed.

Lemma sent_app (l1 l2 : list effect) : sent (l1 ++ l2) = (sent l1 ++ sent l2)%list.
Proof. unfold sent. apply flat_map_app. Qed.

Lemma failures_app (l1 l2 : list effect) :
  failures (l1 ++ l2) = (failures l1 + failures l2)%nat.
Proof. unfold failures. rewrite List.filter_app, length_app. reflexivity. Qed.

Lemma Stream_forwards (logstream : list (Z * router.Message)) :
  forall (a : CloudwatchAdapter) (d : D),
    let effs := (Stream environ a logstream d).2 in
    (length (sent effs) + failures effs = length logstream)%nat
    /\ sublist (map carried (sent effs)) (map expected logstream)
    /\ (failures effs = 0%nat -> map carried (sent effs) = map expected logstream).
Proof.
  induction logstream as [|[now m] rest IH]; intros a d.
  - simpl. split; [reflexivity|]. split; [constructor | reflexivity].
  - cbv zeta. rewrite Stream_cons.
    pose proof (Stream_body_forwards a now m d) as Hbody. cbv zeta in Hbody.
    destruct (Stream_body environ a now m d) as [[a1 d1] effs1].
    specialize (IH a1 d1). cbv zeta in IH.
    destruct (Stream environ a1 rest d1) as [[a2 d2] effs2].
    cbn [snd] in *. destruct IH as (IHlen & IHsub & IHeq).
    rewrite sent_app, failures_app, map_app, length_app.
    destruct Hbody as [[Hf Hs]|[Hf Hs]]; rewrite Hf.
    + rewrite Hs. assert (Hl : length (sent effs1) = 1%nat).
      { rewrite <- (length_map carried), Hs. reflexivity. }
      rewrite Hl. simpl map. split; [simpl; lia|]. split.
      * simpl. apply sublist_skip. exact IHsub.
      * intros H0. simpl in H0. simpl. f_equal. apply IHeq. exact H0.
    + rewrite Hs. simpl. split; [lia|]. split.
      * apply sublist_cons. exact IHsub.
      * intros H0. discriminate.
Qed.

(** A record of a cached source is forwarded with the cached names. *)
Lemma Stream_body_cached a now m d :
  cached a (docker.Name (router.Container m)) ->
  Stream_body environ a now m d
  = (a, d, [Send (forwarded now m
                    (default "" (groupnames a !! docker.Name (router.Container m)))
                    (default "" (streamnames a !! docker.Name (router.Container m))))]).
Proof.
  intros Hc. apply cached_test in Hc. unfold Stream_body. rewrite Hc. reflexivity.
Qed.

(** The cache entry of a cached source survives every run. *)
Lemma Stream_keeps_cached (logstream : list (Z * router.Message)) :
  forall (a : CloudwatchAdapter) (d : D) (name : string),
    cached a name ->
    groupnames (Stream environ a logstream d).1.1 !! name = groupnames a !! name
    /\ streamnames (Stream environ a logstream d).1.1 !! name = streamnames a !! name.
Proof.
  induction logstream as [|[now m] rest IH]; intros a d name Hc.
  - split; reflexivity.
  - rewrite Stream_cons.
    pose proof (Stream_body_on environ a now m d name) as Hbody.
    destruct (Stream_body environ a now m d) as [[a1 d1] effs1].
    assert (Hsame : groupnames a1 !! name = groupnames a !! name
                    /\ streamnames a1 !! name = streamnames a !! name).
    { destruct Hbody as [H|[H|[H|H]]].
      - destruct H as (_ & Hg & Hs & _). split; assumption.
      - destruct H as (_ & _ & -> & _). split; reflexivity.
      - destruct H as (_ & Hn & _). contradiction.
      - destruct H as (_ & Hn & _). contradiction. }
    destruct Hsame as [Hg Hs].
    assert (Hc1 : cached a1 name) by (apply (cached_same a a1 name Hg Hs); exact Hc).
    destruct (IH a1 d1 name Hc1) as [IHg IHs].
    destruct (Stream environ a1 rest d1) as [[a2 d2] effs2].
    cbn [fst] in *. split; congruence.
Qed.

End Forwarding.

(** X8.  [Stream] forwards the records in arrival order, each with its
    payload, the clock reading of its handling and its container name
    without the leading slash; the only records it drops are those whose
    container inspection failed, one per failure, so when no inspection
    fails every record is forwarded. *)
Theorem X8_records_forwarded_in_order :
  forall (environ : gmap string string) (engine : TemplateEngine)
         (D : Type) (client : docker.Client D)
         (a : CloudwatchAdapter) (logstream : list (Z * router.Message)) (d : D),
    let effs := (Adapter.Stream environ a logstream d).2 in
    (length (Delivery.sent effs) + Delivery.failures effs = length logstream)%nat
    /\ sublist (map Delivery.carried (Delivery.sent effs))
               (map Delivery.expected logstream)
    /\ (Delivery.failures effs = 0%nat ->
        map Delivery.carried (Delivery.sent effs) = map Delivery.expected logstream).
Proof.
  intros environ engine D client a logstream d. apply Stream_forwards.
Qed.

(** Three records of two known containers: all three are forwarded. *)
Lemma X8_records_forwarded_witness :
  map Delivery.carried
      (Delivery.sent
         (Adapter.Stream (engine := Fixtures.fieldTemplates) (client := Fixtures.daemon)
            ∅ Resolver.adapter0 Delivery.traffic
            {["c1" := Resolver.web; "c3" := Resolver.plain]}).2)
  = map Delivery.expected Delivery.traffic.
Proof.
  destruct (X8_records_forwarded_in_order
              ∅ Fixtures.fieldTemplates _ Fixtures.daemon Resolver.adapter0
              Delivery.traffic {["c1" := Resolver.web; "c3" := Resolver.plain]})
    as (_ & _ & H).
  apply H. vm_compute. reflexivity.
Defined.

(** X9.  Once a source is cached with a group and a stream that are not
    empty, its cache entry never changes, and after any further records of
    any sources a record of that source is forwarded with exactly the
    cached names, without inspection, whatever its own environment says. *)
Theorem X9_cached_names_are_pinned :
  forall (environ : gmap string string) (engine : TemplateEngine)
         (D : Type) (client : docker.Client D)
         (a : CloudwatchAdapter) (logstream : list (Z * router.Message)) (d : D)
         (now : Z) (m : router.Message),
    Resolver.cached a (docker.Name (router.Container m)) ->
    let name := docker.Name (router.Container m) in
    let a1 := (Adapter.Stream environ a logstream d).1.1 in
    let d1 := (Adapter.Stream environ a logstream d).1.2 in
    groupnames a1 !! name = groupnames a !! name
    /\ streamnames a1 !! name = streamnames a !! name
    /\ Adapter.Stream_body environ a1 now m d1
       = (a1, d1, [Adapter.Send (Delivery.forwarded now m
                                   (default "" (groupnames a !! name))
                                   (default "" (streamnames a !! name)))]).
Proof.
  intros environ engine D client a logstream d now m Hc name a1 d1.
  destruct (Stream_keeps_cached environ logstream a d name Hc) as [Hg Hs].
  fold a1 in Hg, Hs. split; [exact Hg|]. split; [exact Hs|].
  rewrite <- Hg, <- Hs. apply Stream_body_cached.
  apply (cached_same a a1 name Hg Hs). exact Hc.
Qed.

(** The container [web] is cached as [production]/[frontend]; after
    other records a record of [web], whose environment sets another
    group, is forwarded with the cached names. *)
Lemma X9_cached_names_witness :
  Adapter.Stream_body (engine := Fixtures.fieldTemplates) (client := Fixtures.daemon) ∅
    (Adapter.Stream (engine := Fixtures.fieldTemplates) (client := Fixtures.daemon)
       ∅ Delivery.warm Delivery.traffic {["c3" := Resolver.plain]}).1.1
    9 (Resolver.record Resolver.web "late")
    (Adapter.Stream (engine := Fixtures.fieldTemplates) (client := Fixtures.daemon)
       ∅ Delivery.warm Delivery.traffic {["c3" := Resolver.plain]}).1.2
  = ((Adapter.Stream (engine := Fixtures.fieldTemplates) (client := Fixtures.daemon)
        ∅ Delivery.warm Delivery.traffic {["c3" := Resolver.plain]}).1.1,
     (Adapter.Stream (engine := Fixtures.fieldTemplates) (client := Fixtures.daemon)
        ∅ Delivery.warm Delivery.traffic {["c3" := Resolver.plain]}).1.2,
     [Adapter.Send (Delivery.forwarded 9 (Resolver.record Resolver.web "late")
                      "production" "frontend")]).
Proof.
  apply (X9_cached_names_are_pinned
           ∅ Fixtures.fieldTemplates _ Fixtures.daemon Delivery.warm Delivery.traffic
           {["c3" := Resolver.plain]} 9 (Resolver.record Resolver.web "late")).
  split; vm_compute; discriminate.
Defined.

(** X10.  The earlier revision of [Stream], which has no cache, inspects
    the container once for every record it receives. *)
Theorem X10_uncached_revision_inspects_every_record :
  forall (environ : gmap string string) (engine : TemplateEngine)
         (D : Type) (client : docker.Client D)
         (a : CloudwatchAdapter) (logstream : list (Z * router.Message)) (d : D)
         (name : string),
    Resolver.lookups name (Adapter.Stream_uncached environ a logstream d).2
    = length (Resolver.from name logstream).
Proof.
  intros environ engine D client a logstream d name.
  apply Stream_uncached_lookups.
Qed.

(** X11.  When neither the container environment, nor the route options,
    nor the process environment set the key, [renderEnvValue] returns the
    default value, whatever the template engine makes of it. *)
Theorem X11_default_without_override :
  forall (environ : gmap string string) (engine : TemplateEngine)
         (a : CloudwatchAdapter) (envKey : string) (context : RenderContext)
         (defaultVal : string),
    Env context !! envKey = None ->
    router.Options (route a) !! envKey = None ->
    Adapter.Getenv environ envKey = "" ->
    Adapter.renderEnvValue environ a envKey context defaultVal = defaultVal.
Proof.
  intros environ engine a envKey context defaultVal He Hr Hg.
  unfold Adapter.renderEnvValue, Adapter.templateText. rewrite He, Hr, Hg.
  rewrite (bool_decide_eq_false_2 ("" ≠ "")) by (intros H; now apply H).
  unfold Adapter.renderText.
  destruct (Parse defaultVal) as [tmpl|e]; [|reflexivity].
  destruct (Execute tmpl context); reflexivity.
Qed.

(** A logger host name that is no valid template is still the group of a
    container without overrides. *)
Lemma X11_default_without_override_witness :
  Adapter.renderEnvValue (engine := Fixtures.fieldTemplates) ∅ Resolver.adapter0
    Adapter.LOG_GROUP
    (Adapter.makeContext Resolver.adapter0 (Resolver.record Resolver.plain "x")
       Resolver.plain)
    "host{{"
  = "host{{".
Proof.
  apply X11_default_without_override; reflexivity.
Defined.

(** ** The container environment *)

Section EnvLines.

Import Adapter Delivery.

Lemma append_cons (x : ascii) (a b : string) : String x a +:+ b = String x (a +:+ b).
Proof. reflexivity. Qed.

Lemma append_nil_r (a : string) : a +:+ EmptyString = a.
Proof.
  induction a as [|x a IH]; [reflexivity|]. rewrite append_cons, IH. reflexivity.
Qed.

(** A text without the separator is one field. *)
Lemma Split_one (c : ascii) (s : string) :
  hasByte c s = false -> strings.Split s c = [s].
Proof.
  induction s as [|x s IH]; intros H; [reflexivity|].
  simpl in H. apply orb_false_iff in H. destruct H as [Hx Hs].
  simpl. rewrite Hx, (IH Hs). reflexivity.
Qed.

(** The first field ends at the first separator. *)
Lemma Split_first (c : ascii) (k v : string) :
  hasByte c k = false ->
  strings.Split (k +:+ String c v) c = k :: strings.Split v c.
Proof.
  induction k as [|x k IH]; intros H.
  - change (EmptyString +:+ String c v) with (String c v).
    simpl. rewrite Ascii.eqb_refl. reflexivity.
  - simpl in H. apply orb_false_iff in H. destruct H as [Hx Hk].
    rewrite append_cons. simpl. rewrite Hx, (IH Hk). reflexivity.
Qed.

Lemma Split_nonempty (c : ascii) (s : string) : strings.Split s c <> [].
Proof.
  destruct s as [|x s]; simpl; [discriminate|].
  destruct (Ascii.eqb x c); [discriminate|].
  destruct (strings.Split s c); discriminate.
Qed.

(** [Join] puts the separator before every field but the first. *)
Lemma Join_cons (sep f : string) (fs : list string) :
  strings.Join (f :: fs) sep
  = f +:+ fold_right (fun x r => sep +:+ x +:+ r) EmptyString fs.
Proof.
  unfold strings.Join. revert f.
  induction fs as [|g fs IH]; intros f; simpl.
  - rewrite append_nil_r. reflexivity.
  - rewrite IH, !string_app_assoc. reflexivity.
Qed.

(** Joining the fields of a text with the separator gives the text back. *)
Lemma Join_Split (c : ascii) (s : string) :
  strings.Join (strings.Split s c) (String c EmptyString) = s.
Proof.
  induction s as [|x s IH]; [reflexivity|].
  simpl. destruct (strings.Split s c) as [|f fs] eqn:Hs.
  - exfalso. exact (Split_nonempty c s Hs).
  - rewrite Join_cons in IH.
    destruct (Ascii.eqb_spec x c) as [->|Hne].
    + rewrite Join_cons. simpl fold_right.
      change (EmptyString +:+ ?t) with t.
      change (String c EmptyString +:+ ?t) with (String c t).
      rewrite IH. reflexivity.
    + rewrite Join_cons, append_cons, IH. reflexivity.
Qed.

Lemma parseEnv_app lines line :
  parseEnv (lines ++ [line])
  = match strings.Split line "=" with
    | key :: (_ :: _) as rest => <[key := strings.Join rest "="]> (parseEnv lines)
    | _ => parseEnv lines
    end.
Proof. unfold parseEnv. rewrite fold_left_app. reflexivity. Qed.

Lemma parseEnv_key_line key value lines :
  hasByte "=" key = false ->
  parseEnv (lines ++ [key +:+ String "=" value]) = <[key := value]> (parseEnv lines).
Proof.
  intros Hkey.
  rewrite parseEnv_app, (Split_first "=" key value Hkey).
  pose proof (Join_Split "=" value) as Hjoin.
  destruct (strings.Split value "=") as [|f fs] eqn:Hs.
  - exfalso. exact (Split_nonempty "=" value Hs).
  - rewrite Hjoin. reflexivity.
Qed.

End EnvLines.

(** X12.  A line [key=value] of the container environment binds the text
    before the first [=] to everything after it, further [=] signs
    included, and replaces what earlier lines bound to that key; the key
    may be empty. *)
Theorem X12_parseEnv_binds_key_to_rest_of_line :
  forall (lines : list string) (key value : string),
    Delivery.hasByte "=" key = false ->
    Adapter.parseEnv (lines ++ [key +:+ String "=" value])
    = <[key := value]> (Adapter.parseEnv lines).
Proof.
  intros lines key value Hkey. apply parseEnv_key_line. exact Hkey.
Qed.

(** The value of [JAVA_OPTS] keeps its [=] signs and replaces the earlier
    one. *)
Lemma X12_parseEnv_binds_witness :
  Adapter.parseEnv (["JAVA_OPTS=-Xmx1g"; "PATH=/bin"]
                      ++ ["JAVA_OPTS" +:+ String "=" "-Da=b -Dc=d"])
  = <["JAVA_OPTS" := "-Da=b -Dc=d"]> (Adapter.parseEnv ["JAVA_OPTS=-Xmx1g"; "PATH=/bin"]).
Proof.
  apply X12_parseEnv_binds_key_to_rest_of_line. reflexivity.
Defined.

(** X13.  A line of the container environment without [=] binds nothing:
    it leaves the bindings of the other lines as they are. *)
Theorem X13_parseEnv_skips_lines_without_equals :
  forall (lines : list string) (line : string),
    Delivery.hasByte "=" line = false ->
    Adapter.parseEnv (lines ++ [line]) = Adapter.parseEnv lines.
Proof.
  intros lines line Hline.
  rewrite parseEnv_app, (Split_one "=" line Hline). reflexivity.
Qed.

(** A line [LOG_GROUP] without value does not override the group. *)
Lemma X13_parseEnv_skips_witness :
  Adapter.parseEnv (["PATH=/bin"] ++ ["LOG_GROUP"]) = Adapter.parseEnv ["PATH=/bin"].
Proof.
  apply X13_parseEnv_skips_lines_without_equals. reflexivity.
Defined.

Section EnvLookup.

Import Adapter Delivery.

(** A text with the separator splits at its first occurrence. *)
Lemma hasByte_split (c : ascii) (s : string) :
  hasByte c s = true ->
  exists k v, s = k +:+ String c v /\ hasByte c k = false.
Proof.
  induction s as [|x s IH]; intros H; [discriminate|].
  simpl in H. destruct (Ascii.eqb_spec x c) as [->|Hne].
  - exists EmptyString, s. split; reflexivity.
  - simpl in H. destruct (IH H) as (k & v & -> & Hk).
    exists (String x k), v. split; [reflexivity|].
    simpl. rewrite Hk. destruct (Ascii.eqb_spec x c); [contradiction | reflexivity].
Qed.

(** A text that starts with [key] and the separator has the separator. *)
Lemma HasPrefix_hasByte (c : ascii) (key line : string) :
  strings.HasPrefix line (key +:+ String c EmptyString) = true -> hasByte c line = true.
Proof.
  unfold strings.HasPrefix. revert line.
  induction key as [|a key IH]; intros line H.
  - change (EmptyString +:+ String c EmptyString) with (String c EmptyString) in H.
    destruct line as [|x line]; [discriminate|]. simpl in H.
    destruct (ascii_dec c x) as [<-|Hne]; [|discriminate].
    simpl. rewrite Ascii.eqb_refl. reflexivity.
  - rewrite append_cons in H. destruct line as [|x line]; [discriminate|].
    simpl in H. destruct (ascii_dec a x) as [<-|Hne]; [|discriminate].
    simpl. rewrite (IH line H). apply orb_true_r.
Qed.

(** Two keys without the separator: the line of one starts with the other
    and the separator only if the keys are the same. *)
Lemma HasPrefix_key (c : ascii) (key k v : string) :
  hasByte c key = false -> hasByte c k = false ->
  strings.HasPrefix (k +:+ String c v) (key +:+ String c EmptyString) = true ->
  key = k.
Proof.
  unfold strings.HasPrefix. revert k.
  induction key as [|a key IH]; intros k Hkey Hk H.
  - destruct k as [|x k]; [reflexivity|].
    change (EmptyString +:+ String c EmptyString) with (String c EmptyString) in H.
    rewrite append_cons in H. simpl in H.
    destruct (ascii_dec c x) as [<-|Hne]; [|discriminate].
    simpl in Hk. rewrite Ascii.eqb_refl in Hk. discriminate.
  - simpl in Hkey. apply orb_false_iff in Hkey. destruct Hkey as [Ha Hkey].
    rewrite append_cons in H. destruct k as [|x k].
    + change (EmptyString +:+ String c v) with (String c v) in H. simpl in H.
      destruct (ascii_dec a c) as [->|Hne]; [|discriminate].
      rewrite Ascii.eqb_refl in Ha. discriminate.
    + rewrite append_cons in H. simpl in H.
      destruct (ascii_dec a x) as [<-|Hne]; [|discriminate].
      simpl in Hk. apply orb_false_iff in Hk. destruct Hk as [_ Hk].
      f_equal. exact (IH k Hkey Hk H).
Qed.

Lemma parseEnv_unbound (key : string) (lines : list string) :
  hasByte "=" key = false ->
  parseEnv lines !! key = None
  <-> Forall (fun line => strings.HasPrefix line (key +:+ "=") = false) lines.
Proof.
  intros Hkey. induction lines as [|line lines IH] using rev_ind.
  - split; [constructor | intros _; apply lookup_empty].
  - rewrite Forall_app, Forall_singleton.
    destruct (hasByte "=" line) eqn:Hline.
    + destruct (hasByte_split "=" line Hline) as (k & v & -> & Hk).
      rewrite (parseEnv_key_line k v lines Hk).
      destruct (decide (k = key)) as [->|Hne].
      * rewrite lookup_insert_eq. split; [discriminate|].
        intros [_ H]. exfalso.
        pose proof (HasPrefix_app (key +:+ "=") v) as Hp.
        rewrite string_app_assoc in Hp.
        change (String "=" EmptyString +:+ v) with (String "=" v) in Hp.
        congruence.
      * rewrite lookup_insert_ne by assumption. rewrite IH.
        split; [|tauto]. intros H. split; [exact H|].
        destruct (strings.HasPrefix (k +:+ String "=" v) (key +:+ "=")) eqn:Hp;
          [|reflexivity].
        exfalso. apply Hne. symmetry.
        exact (HasPrefix_key "=" key k v Hkey Hk Hp).
    + rewrite parseEnv_app, (Split_one "=" line Hline), IH.
      split; [|tauto]. intros H. split; [exact H|].
      destruct (strings.HasPrefix line (key +:+ "=")) eqn:Hp; [|reflexivity].
      rewrite (HasPrefix_hasByte "=" key line Hp) in Hline. discriminate.
Qed.

End EnvLookup.

(** X14.  The container environment leaves a key unbound exactly when no
    line starts with the key followed by [=]. *)
Theorem X14_parseEnv_unbound_key :
  forall (key : string) (lines : list string),
    Delivery.hasByte "=" key = false ->
    Adapter.parseEnv lines !! key = None
    <-> Forall (fun line => strings.HasPrefix line (key +:+ "=") = false) lines.
Proof. intros key lines Hkey. apply parseEnv_unbound. exact Hkey. Qed.

(** No line of [plain] sets [LOG_GROUP]. *)
Lemma X14_parseEnv_unbound_witness :
  Adapter.parseEnv ["PATH=/bin"; "LOG_GROUPS=x"; "LOG_GROUP"] !! "LOG_GROUP" = None
  <-> Forall (fun line => strings.HasPrefix line ("LOG_GROUP" +:+ "=") = false)
             ["PATH=/bin"; "LOG_GROUPS=x"; "LOG_GROUP"].
Proof.
  apply X14_parseEnv_unbound_key. reflexivity.
Defined.

(** ** The dispatcher: tokens over several batches *)

Section TokenChain.

Import cloudwatchlogs Uploader Dispatcher Sequencing.

Context {S : Type} {svc : Service S}.

(** With a cached token the round is the submission alone. *)
Lemma Start_body_hit fuel tokens batch msg rest t s :
  Msgs batch = msg :: rest ->
  tokens !! Container msg = Some t ->
  Start_body fuel tokens batch s
  = let params := putParams msg batch (Some t) in
    match PutLogEvents params s with
    | (Err e, s2) => Some (PutError params e, tokens, s2)
    | (Ok next, s2) =>
        Some (Put200 params next,
              match next with
              | Some n => <[Container msg := n]> tokens
              | None => tokens
              end, s2)
    end.
Proof.
  intros Hm Ht. unfold Start_body, fetchToken. rewrite Hm, Ht. reflexivity.
Qed.

(** As long as the service rejects the cached token, every batch of the
    stream is rejected and the cache stays as it is. *)
Lemma Start_stuck fuel k t s (input : list CloudwatchBatch) :
  forall tokens,
    tokens !! k = Some t -> rejects s t ->
    Forall (fun b => streamKey b = Some k) input ->
    exists os,
      Start fuel tokens input s = Some (os, tokens, s)
      /\ length os = length input
      /\ Forall (rejectedWith t) os.
Proof.
  induction input as [|batch rest IH]; intros tokens Ht Hrej Hall.
  - exists []. split; [reflexivity|]. split; [reflexivity | constructor].
  - apply Forall_cons in Hall. destruct Hall as [Hkey Hall].
    unfold streamKey in Hkey. destruct (Msgs batch) as [|msg more] eqn:Hm; [discriminate|].
    simpl in Hkey. injection Hkey as Hkey.
    destruct (Hrej (putParams msg batch (Some t)) eq_refl) as [e He].
    destruct (IH tokens Ht Hrej Hall) as (os & Hrun & Hlen & Hos).
    exists (PutError (putParams msg batch (Some t)) e :: os).
    split; [|split].
    + cbn [Start].
      rewrite (Start_body_hit fuel tokens batch msg more t s Hm)
        by (rewrite Hkey; exact Ht).
      cbv zeta. rewrite He, Hrun. reflexivity.
    + simpl. rewrite Hlen. reflexivity.
    + constructor; [|exact Hos]. eexists _, _. split; reflexivity.
Qed.

End TokenChain.

(** X15.  When the token of the stream key is cached, a round of the
    dispatcher calls the remote service once, with [PutLogEvents] carrying
    the cached token: no group or stream is described or created. *)
Theorem X15_cached_token_one_remote_call :
  forall (fuel : nat) (tokens : gmap string string) (batch : CloudwatchBatch)
         (msg : CloudwatchMessage) (rest : list CloudwatchMessage) (t : string)
         (s : Fixtures.scripted),
    Msgs batch = msg :: rest ->
    tokens !! Container msg = Some t ->
    exists o tokens' s',
      Uploader.Start_body (svc := Fixtures.script) fuel tokens batch s = Some (o, tokens', s')
      /\ Fixtures.calls s'
         = (Fixtures.calls s
              ++ [Fixtures.PutLogEventsReq (Uploader.putParams msg batch (Some t))])%list.
Proof.
  intros fuel tokens batch msg rest t s Hm Ht.
  rewrite (Start_body_hit fuel tokens batch msg rest t s Hm Ht). cbv zeta.
  cbn [cloudwatchlogs.PutLogEvents Fixtures.script]. unfold Fixtures.answer.
  destruct (Fixtures.pending s) as [|r pending'].
  - eexists _, _, _. split; reflexivity.
  - destruct (match r with Fixtures.EventsPut a => Some a | _ => None end) as [[next|e]|];
      eexists _, _, _; split; reflexivity.
Qed.

(** A cached token and a scripted service: one request is recorded. *)
Lemma X15_cached_token_witness :
  exists o tokens' s',
    Uploader.Start_body (svc := Fixtures.script) 0 {["web" := "tok7"]}
      Dispatcher.webBatch Dispatcher.fetchThenPut
    = Some (o, tokens', s')
    /\ Fixtures.calls s'
       = (Fixtures.calls Dispatcher.fetchThenPut
            ++ [Fixtures.PutLogEventsReq
                  (Uploader.putParams Dispatcher.webRecord Dispatcher.webBatch
                     (Some "tok7"))])%list.
Proof.
  apply (X15_cached_token_one_remote_call 0 {["web" := "tok7"]} Dispatcher.webBatch
           Dispatcher.webRecord [] "tok7" Dispatcher.fetchThenPut); reflexivity.
Defined.

(** X16.  When a submission succeeds and the service answers a next
    token, that token is cached under the stream key, batches of other
    streams do not change it, and the next batch with the same stream key
    is submitted with it. *)
Theorem X16_next_token_is_used_for_next_batch :
  forall (S : Type) (svc : cloudwatchlogs.Service S) (fuel : nat)
         (tokens : gmap string string) (batch : CloudwatchBatch) (s : S)
         (params : cloudwatchlogs.PutLogEventsInput) (next : string)
         (tokens' : gmap string string) (s' : S),
    Uploader.Start_body fuel tokens batch s
    = Some (Uploader.Put200 params (Some next), tokens', s') ->
    exists k,
      streamKey batch = Some k
      /\ tokens' !! k = Some next
      /\ forall (fuel2 : nat) (others : list CloudwatchBatch) (s2 : S)
                (os : list Uploader.outcome) (tokens2 : gmap string string) (s3 : S),
           (forall b, In b others -> streamKey b ≠ Some k) ->
           Uploader.Start fuel2 tokens' others s2 = Some (os, tokens2, s3) ->
           tokens2 !! k = Some next
           /\ forall (fuel3 : nat) (following : CloudwatchBatch) (s4 : S),
                streamKey following = Some k ->
                exists o tokens3 s5,
                  Uploader.Start_body fuel3 tokens2 following s4 = Some (o, tokens3, s5)
                  /\ Dispatcher.submittedToken o = Some (Some next).
Proof.
  intros S svc fuel tokens batch s params next tokens' s' H.
  unfold Uploader.Start_body in H.
  destruct (Msgs batch) as [|msg rest] eqn:Hm; [discriminate|].
  exists (Container msg). split; [unfold streamKey; rewrite Hm; reflexivity|].
  destruct (Uploader.fetchToken fuel tokens msg s) as [[[[token|e1] tokens1] s1]|];
    try discriminate.
  destruct (cloudwatchlogs.PutLogEvents _ s1) as [[[n|]|e2] s2]; try discriminate.
  injection H as <- <- <- <-.
  split; [apply lookup_insert_eq|].
  intros fuel2 others s3 os tokens2 s4 Hothers Hrun.
  assert (Hk : tokens2 !! Container msg = Some n).
  { rewrite (Start_other_keys fuel2 _ others _ _ _ _ _ Hothers Hrun).
    apply lookup_insert_eq. }
  split; [exact Hk|].
  intros fuel3 following s5 Hnext. unfold streamKey in Hnext.
  destruct (Msgs following) as [|msg2 rest2] eqn:Hm2; [discriminate|].
  simpl in Hnext. injection Hnext as Hkey. rewrite <- Hkey in Hk.
  destruct (Start_body_cached fuel3 tokens2 following msg2 rest2 n s5 Hm2 Hk)
    as (o & tokens3 & s6 & Hb & Hsub).
  exists o, tokens3, s6. split; [exact Hb|].
  unfold Dispatcher.submittedToken. rewrite Hsub. reflexivity.
Qed.

(** The first batch of a new destination answers the token [0]; the next
    batch is submitted with it. *)
Lemma X16_next_token_witness :
  exists o tokens3 s5,
    Uploader.Start_body (svc := Fixtures.memory) 0 {["web" := "0"]}
      Dispatcher.webBatch Dispatcher.noLogs
    = Some (o, tokens3, s5)
    /\ Dispatcher.submittedToken o = Some (Some "0").
Proof.
  assert (Hfirst :
    Uploader.Start_body (svc := Fixtures.memory) 2 ∅ Dispatcher.webBatch Dispatcher.noLogs
    = Some (Uploader.Put200
              (Uploader.putParams Dispatcher.webRecord Dispatcher.webBatch None)
              (Some "0"),
            {["web" := "0"]},
            {| Fixtures.groups := ["app"];
               Fixtures.streams := [("app", "web", Some "0")];
               Fixtures.issued := 1 |}))
    by (vm_compute; reflexivity).
  destruct (X16_next_token_is_used_for_next_batch _ _ _ _ _ _ _ _ _ _ Hfirst)
    as (k & Hk & _ & Hnext).
  injection Hk as <-.
  destruct (Hnext 0%nat [] Dispatcher.noLogs [] {["web" := "0"]} Dispatcher.noLogs)
    as [_ Hsub].
  - intros b [].
  - reflexivity.
  - exact (Hsub 0%nat Dispatcher.webBatch Dispatcher.noLogs eq_refl).
Defined.

(** X17.  The dispatcher never refreshes a cached token: while the
    service rejects the token cached for a stream key, every batch with
    that key is submitted with it and rejected, whatever their number,
    and the cache is left as it was. *)
Theorem X17_rejected_token_is_never_refreshed :
  forall (S : Type) (svc : cloudwatchlogs.Service S) (fuel : nat)
         (tokens : gmap string string) (k t : string) (s : S)
         (input : list CloudwatchBatch),
    tokens !! k = Some t ->
    Sequencing.rejects s t ->
    Forall (fun b => streamKey b = Some k) input ->
    exists os,
      Uploader.Start fuel tokens input s = Some (os, tokens, s)
      /\ length os = length input
      /\ Forall (Sequencing.rejectedWith t) os.
Proof.
  intros S svc fuel tokens k t s input Ht Hrej Hall.
  exact (Start_stuck fuel k t s input tokens Ht Hrej Hall).
Qed.

(** The service expects the token [5] for [app]/[web] and the cache holds
    [3]: three batches in a row are rejected. *)
Lemma X17_rejected_token_witness :
  exists os,
    Uploader.Start (svc := Fixtures.memory) 0 {["web" := "3"]}
      [Dispatcher.webBatch; Dispatcher.webBatch; Dispatcher.webBatch] Sequencing.moved
    = Some (os, {["web" := "3"]}, Sequencing.moved)
    /\ length os = 3%nat
    /\ Forall (Sequencing.rejectedWith "3") os.
Proof.
  apply (X17_rejected_token_is_never_refreshed _ Fixtures.memory 0 {["web" := "3"]}
           "web" "3" Sequencing.moved
           [Dispatcher.webBatch; Dispatcher.webBatch; Dispatcher.webBatch]).
  - reflexivity.
  - intros params Hp. cbn [cloudwatchlogs.PutLogEvents Fixtures.memory].
    unfold Fixtures.putLogEvents. cbv zeta.
    destruct (List.find _ (Fixtures.streams Sequencing.moved)) as [st|] eqn:Hfind.
    + apply List.find_some in Hfind. destruct Hfind as [Hin _].
      simpl in Hin. destruct Hin as [<-|[]]. rewrite Hp.
      eexists. reflexivity.
    + eexists. reflexivity.
  - repeat constructor.
Defined.

(** ** The dispatcher against a service that checks tokens *)

Section OnMemory.

Import cloudwatchlogs Uploader Fixtures Dispatcher Sequencing.

(** No group has a name starting with [g]: in particular [g] is no group. *)
Lemma no_prefix_no_group (g : string) (gs : list string) :
  List.filter (fun x => strings.HasPrefix x g) gs = [] -> g ∉ gs.
Proof.
  intros Hf Hin. apply list_elem_of_In in Hin.
  assert (Hg : In g (List.filter (fun x => strings.HasPrefix x g) gs)).
  { apply List.filter_In. split; [exact Hin | apply prefix_refl]. }
  rewrite Hf in Hg. destruct Hg.
Qed.

Lemma prefix_refl_HasPrefix (g : string) : strings.HasPrefix g g = true.
Proof. unfold strings.HasPrefix. apply prefix_refl. Qed.

Lemma filter_none {A} (p : A -> bool) (l : list A) :
  Forall (fun x => p x = false) l -> List.filter p l = [].
Proof.
  induction l as [|x l IH]; intros H; [reflexivity|].
  apply Forall_cons in H. destruct H as [Hx Hl]. simpl. rewrite Hx. exact (IH Hl).
Qed.

Lemma existsb_none {A} (p : A -> bool) (l : list A) :
  Forall (fun x => p x = false) l -> existsb p l = false.
Proof.
  induction l as [|x l IH]; intros H; [reflexivity|].
  apply Forall_cons in H. destruct H as [Hx Hl]. simpl. rewrite Hx. exact (IH Hl).
Qed.

Lemma find_none_app {A} (p : A -> bool) (l : list A) (x : A) :
  Forall (fun y => p y = false) l -> p x = true -> List.find p (l ++ [x]) = Some x.
Proof.
  induction l as [|y l IH]; intros H Hx.
  - simpl. rewrite Hx. reflexivity.
  - apply Forall_cons in H. destruct H as [Hy Hl]. simpl. rewrite Hy. exact (IH Hl Hx).
Qed.

Lemma isStream_refl g st tok : isStream g st (g, st, tok) = true.
Proof.
  unfold isStream. simpl. rewrite !bool_decide_eq_true_2 by reflexivity. reflexivity.
Qed.

Lemma inGroup_isStream g st x : inGroup g x = false -> isStream g st x = false.
Proof. unfold inGroup, isStream. intros ->. reflexivity. Qed.

(** The lookup for a destination the service does not know: the group
    and the stream are created, in that order, and the second pass finds
    the new stream, which has no token yet. *)
Lemma getSequenceToken_fresh (s : logs) (msg : CloudwatchMessage) fuel :
  List.filter (fun x => strings.HasPrefix x (Group msg)) (groups s) = [] ->
  Forall (fun st => inGroup (Group msg) st = false) (streams s) ->
  getSequenceToken (svc := memory) (Datatypes.S (Datatypes.S fuel)) msg s
  = Some (Ok None,
          {| groups := (groups s ++ [Group msg])%list;
             streams := (streams s ++ [(Group msg, Stream msg, None)])%list;
             issued := issued s |}).
Proof.
  intros Hg Hst.
  pose proof (no_prefix_no_group _ _ Hg) as Hnot.
  assert (Hin1 : Group msg ∈ (groups s ++ [Group msg])%list)
    by (apply elem_of_app; right; apply list_elem_of_singleton; reflexivity).
  assert (Hfs : List.filter
                  (fun st => inGroup (Group msg) st && strings.HasPrefix st.1.2 (Stream msg))
                  (streams s) = []).
  { apply filter_none. eapply Forall_impl; [exact Hst|].
    intros st H. simpl in H. rewrite H. reflexivity. }
  assert (Hex : existsb (isStream (Group msg) (Stream msg)) (streams s) = false).
  { apply existsb_none. eapply Forall_impl; [exact Hst|].
    intros st H. apply inGroup_isStream. exact H. }
  (* first pass *)
  cbn [getSequenceToken]. cbv zeta.
  unfold groupExists at 1. unfold bind at 1 2, call at 1.
  cbn [DescribeLogGroups memory]. unfold describeLogGroups at 1.
  rewrite Hg. cbn [map length Nat.ltb Nat.leb].
  unfold ret at 1. unfold bind at 1. unfold createGroup, call at 1.
  cbn [CreateLogGroup memory]. unfold createLogGroup.
  rewrite (bool_decide_eq_false_2 _ Hnot).
  unfold bind at 1. unfold call at 1.
  cbn [DescribeLogStreams memory]. unfold describeLogStreams at 1.
  cbn [groups streams]. rewrite (bool_decide_eq_true_2 _ Hin1), Hfs.
  cbn [map length Nat.ltb Nat.leb].
  unfold bind at 1. unfold createStream, call at 1.
  cbn [CreateLogStream memory]. unfold createLogStream.
  cbn [groups streams issued]. rewrite (bool_decide_eq_true_2 _ Hin1), Hex.
  cbn [negb].
  (* second pass *)
  unfold groupExists. unfold bind at 1 2, call at 1.
  cbn [DescribeLogGroups memory]. unfold describeLogGroups.
  cbn [groups streams issued].
  rewrite List.filter_app, Hg. cbn [List.filter app].
  rewrite prefix_refl_HasPrefix. cbn [map length Nat.ltb Nat.leb].
  unfold ret at 1. unfold bind at 1. unfold ret at 1.
  unfold bind at 1. unfold call at 1.
  cbn [DescribeLogStreams memory]. unfold describeLogStreams.
  cbn [groups streams issued].
  rewrite (bool_decide_eq_true_2 _ Hin1), List.filter_app, Hfs.
  cbn [List.filter app fst snd].
  unfold inGroup. cbn [fst snd].
  rewrite (bool_decide_eq_true_2 (Group msg = Group msg)) by reflexivity.
  rewrite prefix_refl_HasPrefix. cbn [andb map length Nat.ltb Nat.leb].
  reflexivity.
Qed.

Lemma map_replace_none {A} (p : A -> bool) (z : A) (l : list A) :
  Forall (fun y => p y = false) l -> map (fun y => if p y then z else y) l = l.
Proof.
  induction l as [|y l IH]; intros H; [reflexivity|].
  apply Forall_cons in H. destruct H as [Hy Hl]. simpl. rewrite Hy, (IH Hl). reflexivity.
Qed.

Lemma find_map_replace {A} (p : A -> bool) (z : A) (l : list A) x :
  p z = true -> List.find p l = Some x ->
  List.find p (map (fun y => if p y then z else y) l) = Some z.
Proof.
  intros Hz. induction l as [|y l IH]; intros H; [discriminate|].
  simpl in H. simpl. destruct (p y) eqn:Hy.
  - rewrite Hz. reflexivity.
  - rewrite Hy. exact (IH H).
Qed.

(** A submission with the token the service expects is accepted, and the
    service then expects the token it answered. *)
Lemma putLogEvents_expected (s : logs) params t :
  expects s (put_LogGroupName params) (put_LogStreamName params) = Some t ->
  SequenceToken params = t ->
  exists s',
    putLogEvents params s = (Ok (Some (pretty (issued s))), s')
    /\ expects s' (put_LogGroupName params) (put_LogStreamName params)
       = Some (Some (pretty (issued s)))
    /\ groups s' = groups s.
Proof.
  unfold expects, putLogEvents. cbv zeta. intros He Ht.
  destruct (List.find _ (streams s)) as [st|] eqn:Hfind; [|discriminate].
  simpl in He. injection He as He.
  rewrite (bool_decide_eq_true_2 (st.2 = SequenceToken params)) by congruence.
  eexists. split; [reflexivity|]. split; [|reflexivity].
  cbn [streams].
  rewrite (find_map_replace _ _ _ st (isStream_refl _ _ _) Hfind). reflexivity.
Qed.

(** The first batch of a destination the service does not know. *)
Lemma Start_body_fresh (s : logs) tokens batch msg rest fuel :
  Msgs batch = msg :: rest ->
  tokens !! Container msg = None ->
  List.filter (fun x => strings.HasPrefix x (Group msg)) (groups s) = [] ->
  Forall (fun st => inGroup (Group msg) st = false) (streams s) ->
  Start_body (svc := memory) (Datatypes.S (Datatypes.S fuel)) tokens batch s
  = Some (Put200 (putParams msg batch None) (Some (pretty (issued s))),
          <[Container msg := pretty (issued s)]> tokens,
          {| groups := (groups s ++ [Group msg])%list;
             streams := (streams s
                           ++ [(Group msg, Stream msg, Some (pretty (issued s)))])%list;
             issued := Datatypes.S (issued s) |}).
Proof.
  intros Hm Hc Hg Hst.
  unfold Start_body, fetchToken. rewrite Hm, Hc.
  rewrite (getSequenceToken_fresh s msg fuel Hg Hst).
  cbn [PutLogEvents memory]. unfold putLogEvents. cbv zeta.
  cbn [put_LogGroupName put_LogStreamName putParams SequenceToken groups streams issued].
  assert (Hnone : Forall (fun y => isStream (Group msg) (Stream msg) y = false) (streams s)).
  { eapply Forall_impl; [exact Hst|]. intros st H. apply inGroup_isStream. exact H. }
  rewrite (find_none_app _ _ _ Hnone (isStream_refl _ _ None)).
  cbn [snd]. rewrite (bool_decide_eq_true_2 (None = None)) by reflexivity.
  rewrite map_app, (map_replace_none _ _ _ Hnone). cbn [map].
  rewrite isStream_refl. reflexivity.
Qed.

(** While the cache holds the token the service expects for the
    destination, every batch is accepted. *)
Lemma Start_accepts k g st fuel (input : list CloudwatchBatch) :
  forall tokens (s : logs) t,
    tokens !! k = Some t ->
    expects s g st = Some (Some t) ->
    Forall (destined k g st) input ->
    exists os tokens' s',
      Start (svc := memory) fuel tokens input s = Some (os, tokens', s')
      /\ length os = length input
      /\ Forall accepted os
      /\ exists t', tokens' !! k = Some t' /\ expects s' g st = Some (Some t').
Proof.
  induction input as [|batch rest IH]; intros tokens s t Ht He Hall.
  - exists [], tokens, s. split; [reflexivity|]. split; [reflexivity|].
    split; [constructor|]. exists t. split; assumption.
  - apply Forall_cons in Hall. destruct Hall as [Hd Hall].
    destruct Hd as (msg & more & Hm & Hk & Hg & Hs). subst k g st.
    destruct (putLogEvents_expected s (putParams msg batch (Some t)) (Some t) He eq_refl)
      as (s1 & Hput & He1 & _).
    cbn [put_LogGroupName put_LogStreamName putParams] in He1.
    destruct (IH (<[Container msg := pretty (issued s)]> tokens) s1 (pretty (issued s)))
      as (os & tokens' & s' & Hrun & Hlen & Hacc & Hfinal);
      [apply lookup_insert_eq | exact He1 | exact Hall |].
    exists (Put200 (putParams msg batch (Some t)) (Some (pretty (issued s))) :: os),
      tokens', s'.
    split; [|split; [|split]].
    + cbn [Start]. rewrite (Start_body_hit fuel tokens batch msg more t s Hm Ht).
      cbv zeta. cbn [PutLogEvents memory]. rewrite Hput, Hrun. reflexivity.
    + simpl. rewrite Hlen. reflexivity.
    + constructor; [|exact Hacc]. eexists _, _. reflexivity.
    + exact Hfinal.
Qed.

End OnMemory.

(** X18.  The first batch for a destination the service does not know (no
    group has a name starting with the group name, no stream is filed
    under it): the dispatcher creates the group and the stream, submits
    the batch without a token, and caches the token the service answers,
    which is then the token the service expects for the destination. *)
Theorem X18_first_batch_creates_destination :
  forall (s : Fixtures.logs) (tokens : gmap string string) (batch : CloudwatchBatch)
         (msg : CloudwatchMessage) (rest : list CloudwatchMessage) (fuel : nat),
    Msgs batch = msg :: rest ->
    tokens !! Container msg = None ->
    List.filter (fun x => strings.HasPrefix x (Group msg)) (Fixtures.groups s) = [] ->
    Forall (fun st => Fixtures.inGroup (Group msg) st = false) (Fixtures.streams s) ->
    exists s',
      Uploader.Start_body (svc := Fixtures.memory) (Datatypes.S (Datatypes.S fuel))
        tokens batch s
      = Some (Uploader.Put200 (Uploader.putParams msg batch None)
                (Some (pretty (Fixtures.issued s))),
              <[Container msg := pretty (Fixtures.issued s)]> tokens, s')
      /\ Fixtures.groups s' = (Fixtures.groups s ++ [Group msg])%list
      /\ Fixtures.streams s'
         = (Fixtures.streams s
              ++ [(Group msg, Stream msg, Some (pretty (Fixtures.issued s)))])%list
      /\ Sequencing.expects s' (Group msg) (Stream msg)
         = Some (Some (pretty (Fixtures.issued s))).
Proof.
  intros s tokens batch msg rest fuel Hm Hc Hg Hst.
  eexists. split; [exact (Start_body_fresh s tokens batch msg rest fuel Hm Hc Hg Hst)|].
  split; [reflexivity|]. split; [reflexivity|].
  unfold Sequencing.expects. cbn [Fixtures.streams].
  assert (Hnone : Forall (fun y => Fixtures.isStream (Group msg) (Stream msg) y = false)
                         (Fixtures.streams s)).
  { eapply Forall_impl; [exact Hst|]. intros st H. apply inGroup_isStream. exact H. }
  rewrite (find_none_app _ _ _ Hnone (isStream_refl _ _ _)). reflexivity.
Qed.

(** The service knows only the group [other]; a batch for [app]/[web]. *)
Lemma X18_first_batch_witness :
  exists s',
    Uploader.Start_body (svc := Fixtures.memory) 2 ∅ Dispatcher.webBatch
      {| Fixtures.groups := ["other"]; Fixtures.streams := [("other", "web", Some "8")];
         Fixtures.issued := 9 |}
    = Some (Uploader.Put200
              (Uploader.putParams Dispatcher.webRecord Dispatcher.webBatch None)
              (Some "9"),
            <["web" := "9"]> ∅, s')
    /\ Fixtures.groups s' = ["other"; "app"]
    /\ Fixtures.streams s' = [("other", "web", Some "8"); ("app", "web", Some "9")]
    /\ Sequencing.expects s' "app" "web" = Some (Some "9").
Proof.
  apply (X18_first_batch_creates_destination
           {| Fixtures.groups := ["other"]; Fixtures.streams := [("other", "web", Some "8")];
              Fixtures.issued := 9 |}
           ∅ Dispatcher.webBatch Dispatcher.webRecord [] 0).
  - reflexivity.
  - reflexivity.
  - reflexivity.
  - repeat constructor.
Defined.

(** X19.  While the token cached for a stream key is the one the service
    expects for the destination of its batches, every batch of that key
    is accepted, whatever their number, and the cache follows the tokens
    the service answers. *)
Theorem X19_batches_accepted_while_tokens_agree :
  forall (k group stream : string) (fuel : nat) (input : list CloudwatchBatch)
         (tokens : gmap string string) (s : Fixtures.logs) (t : string),
    tokens !! k = Some t ->
    Sequencing.expects s group stream = Some (Some t) ->
    Forall (Sequencing.destined k group stream) input ->
    exists os tokens' s',
      Uploader.Start (svc := Fixtures.memory) fuel tokens input s = Some (os, tokens', s')
      /\ length os = length input
      /\ Forall Sequencing.accepted os
      /\ exists t', tokens' !! k = Some t'
                    /\ Sequencing.expects s' group stream = Some (Some t').
Proof.
  intros k group stream fuel input tokens s t Ht He Hall.
  exact (Start_accepts k group stream fuel input tokens s t Ht He Hall).
Qed.

(** The cache and the service agree on the token [5]: three batches in a
    row are accepted. *)
Lemma X19_batches_accepted_witness :
  exists os tokens' s',
    Uploader.Start (svc := Fixtures.memory) 0 {["web" := "5"]}
      [Dispatcher.webBatch; Dispatcher.webBatch; Dispatcher.webBatch] Sequencing.moved
    = Some (os, tokens', s')
    /\ length os = 3%nat
    /\ Forall Sequencing.accepted os
    /\ exists t', tokens' !! "web" = Some t'
                  /\ Sequencing.expects s' "app" "web" = Some (Some t').
Proof.
  apply (X19_batches_accepted_while_tokens_agree "web" "app" "web" 0
           [Dispatcher.webBatch; Dispatcher.webBatch; Dispatcher.webBatch]
           {["web" := "5"]} Sequencing.moved "5").
  - reflexivity.
  - reflexivity.
  - repeat constructor; exists Dispatcher.webRecord, []; repeat split.
Defined.

Section MemoryLookup.

Import cloudwatchlogs Uploader Fixtures Dispatcher Sequencing.

(** [groupExists] on the in-memory service returns and leaves the service
    as it is. *)
Lemma groupExists_memory (g : string) (s : logs) :
  exists r, groupExists (svc := memory) g s = Some (r, s).
Proof.
  unfold groupExists, bind, call, ret, fail.
  cbn [DescribeLogGroups memory]. unfold describeLogGroups.
  destruct (1 <? length _)%nat; [eexists; reflexivity|].
  destruct (length _ <? 1)%nat; eexists; reflexivity.
Qed.

(** When the stream is listed, one pass of the lookup returns. *)
Lemma getSequenceToken_listed fuel msg (s : logs) tok :
  In (Group msg, Stream msg, tok) (streams s) ->
  exists r s', getSequenceToken (svc := memory) (Datatypes.S fuel) msg s = Some (r, s').
Proof.
  intros Hin.
  assert (Hlisted : forall s1 : logs,
             streams s1 = streams s ->
             exists r s', bind (call (DescribeLogStreams (Group msg) (Stream msg)))
                            (fun resp =>
                               let count := length resp in
                               if (1 <? count)%nat
                               then fail (pretty count +:+ " streams match group "
                                            +:+ Group msg +:+ ", stream "
                                            +:+ Stream msg +:+ "!")
                               else match resp with
                                    | [] => bind (createStream (Group msg) (Stream msg))
                                              (fun _ => getSequenceToken fuel msg)
                                    | ls :: _ => ret (UploadSequenceToken ls)
                                    end) s1 = Some (r, s')).
  { intros s1 Hs1. unfold bind at 1. unfold call.
    cbn [DescribeLogStreams memory]. unfold describeLogStreams.
    destruct (bool_decide (Group msg ∈ groups s1)); [|eexists _, _; reflexivity].
    rewrite Hs1.
    destruct (List.filter _ (streams s)) as [|st more] eqn:Hf.
    - exfalso.
      assert (Hx : In (Group msg, Stream msg, tok)
                      (List.filter
                         (fun st => inGroup (Group msg) st
                                    && strings.HasPrefix st.1.2 (Stream msg))
                         (streams s))).
      { apply List.filter_In. split; [exact Hin|].
        unfold inGroup. cbn [fst snd].
        rewrite bool_decide_eq_true_2 by reflexivity.
        apply prefix_refl_HasPrefix. }
      rewrite Hf in Hx. destruct Hx.
    - cbv zeta. destruct (1 <? length _)%nat; eexists _, _; reflexivity. }
  cbn [getSequenceToken]. cbv zeta.
  destruct (groupExists_memory (Group msg) s) as [r Hr].
  unfold bind at 1. rewrite Hr. destruct r as [[|]|e].
  - unfold bind at 1, ret at 1. apply Hlisted. reflexivity.
  - unfold bind at 1, createGroup, call at 1.
    cbn [CreateLogGroup memory]. unfold createLogGroup.
    destruct (bool_decide (Group msg ∈ groups s)); [eexists _, _; reflexivity|].
    apply Hlisted. reflexivity.
  - eexists _, _. reflexivity.
Qed.

(** On the in-memory service the lookup returns after at most one
    retry. *)
Lemma getSequenceToken_memory_returns fuel msg (s : logs) :
  exists r s',
    getSequenceToken (svc := memory) (Datatypes.S (Datatypes.S fuel)) msg s = Some (r, s').
Proof.
  assert (Hpass : forall s1 : logs,
             exists r s', bind (call (DescribeLogStreams (Group msg) (Stream msg)))
                            (fun resp =>
                               let count := length resp in
                               if (1 <? count)%nat
                               then fail (pretty count +:+ " streams match group "
                                            +:+ Group msg +:+ ", stream "
                                            +:+ Stream msg +:+ "!")
                               else match resp with
                                    | [] => bind (createStream (Group msg) (Stream msg))
                                              (fun _ =>
                                                 getSequenceToken (Datatypes.S fuel) msg)
                                    | ls :: _ => ret (UploadSequenceToken ls)
                                    end) s1 = Some (r, s')).
  { intros s1. unfold bind at 1. unfold call at 1.
    cbn [DescribeLogStreams memory]. unfold describeLogStreams.
    destruct (bool_decide (Group msg ∈ groups s1)); [|eexists _, _; reflexivity].
    cbv zeta. destruct (1 <? length _)%nat; [eexists _, _; reflexivity|].
    destruct (map _ _) as [|ls more]; [|eexists _, _; reflexivity].
    unfold bind at 1, createStream, call.
    cbn [CreateLogStream memory]. unfold createLogStream.
    destruct (negb _); [eexists _, _; reflexivity|].
    destruct (existsb _ _); [eexists _, _; reflexivity|].
    apply (getSequenceToken_listed fuel msg _ None).
    cbn [streams]. apply in_or_app. right. left. reflexivity. }
  cbn [getSequenceToken]. cbv zeta.
  destruct (groupExists_memory (Group msg) s) as [r Hr].
  unfold bind at 1. rewrite Hr. destruct r as [[|]|e].
  - unfold bind at 1, ret at 1. apply Hpass.
  - unfold bind at 1, createGroup, call at 1.
    cbn [CreateLogGroup memory]. unfold createLogGroup.
    destruct (bool_decide (Group msg ∈ groups s)); [eexists _, _; reflexivity|].
    apply Hpass.
  - eexists _, _. reflexivity.
Qed.

(** A single group in the listing makes [groupExists] answer yes, whatever
    the name of that group. *)
Lemma groupExists_single {S : Type} {svc : Service S} (g : string) (s : S) x s' :
  DescribeLogGroups g s = (Ok [x], s') ->
  groupExists g s = Some (Ok true, s').
Proof.
  intros Hd. unfold groupExists, bind, call. rewrite Hd. reflexivity.
Qed.

End MemoryLookup.

(** X20.  [groupExists] does not compare names: a listing with exactly one
    group counts as the group existing.  So when the group of a batch does
    not exist but exactly one other group has a name that starts with its
    name, the group is not created, the token fetch fails with the error
    of the stream listing, and the batch is abandoned with the token cache
    and the service as they were. *)
Theorem X20_other_group_with_prefix_blocks_creation :
  (forall (S : Type) (svc : cloudwatchlogs.Service S) (group : string) (s : S)
          (x : cloudwatchlogs.LogGroup) (s' : S),
      cloudwatchlogs.DescribeLogGroups group s = (Ok [x], s') ->
      Uploader.groupExists group s = Some (Ok true, s'))
  /\ (forall (s : Fixtures.logs) (tokens : gmap string string) (batch : CloudwatchBatch)
             (msg : CloudwatchMessage) (rest : list CloudwatchMessage) (other : string)
             (fuel : nat),
        Msgs batch = msg :: rest ->
        tokens !! Container msg = None ->
        List.filter (fun x => strings.HasPrefix x (Group msg)) (Fixtures.groups s) = [other] ->
        other <> Group msg ->
        Uploader.Start_body (svc := Fixtures.memory) (Datatypes.S fuel) tokens batch s
        = Some (Uploader.TokenError "ResourceNotFoundException", tokens, s)).
Proof.
  split.
  - intros S svc group s x s' Hd. exact (groupExists_single group s x s' Hd).
  - intros s tokens batch msg rest other fuel Hm Hc Hf Hne.
    assert (Hnot : Group msg ∉ Fixtures.groups s).
    { intros Hin. apply list_elem_of_In in Hin.
      assert (Hg : In (Group msg)
                      (List.filter (fun x => strings.HasPrefix x (Group msg))
                                   (Fixtures.groups s))).
      { apply List.filter_In. split; [exact Hin | apply prefix_refl_HasPrefix]. }
      rewrite Hf in Hg. destruct Hg as [Hg|[]]. congruence. }
    apply (Start_body_fetch_error (svc := Fixtures.memory) _ tokens batch msg rest s _ s Hm Hc).
    cbn [Uploader.getSequenceToken]. cbv zeta.
    unfold Uploader.bind at 1.
    rewrite (groupExists_single (svc := Fixtures.memory) (Group msg) s
               (cloudwatchlogs.mkLogGroup other) s)
      by (cbn [cloudwatchlogs.DescribeLogGroups Fixtures.memory];
          unfold Fixtures.describeLogGroups; rewrite Hf; reflexivity).
    unfold Uploader.bind at 1, Uploader.ret at 1.
    unfold Uploader.bind at 1, Uploader.call at 1.
    cbn [cloudwatchlogs.DescribeLogStreams Fixtures.memory].
    unfold Fixtures.describeLogStreams.
    rewrite (bool_decide_eq_false_2 _ Hnot). reflexivity.
Qed.

(** Only [app-staging] exists; a batch for the group [app]. *)
Lemma X20_other_group_witness :
  Uploader.Start_body (svc := Fixtures.memory) 1 ∅ Dispatcher.webBatch Sequencing.staging
  = Some (Uploader.TokenError "ResourceNotFoundException", ∅, Sequencing.staging).
Proof.
  destruct X20_other_group_with_prefix_blocks_creation as [_ H].
  apply (H Sequencing.staging ∅ Dispatcher.webBatch Dispatcher.webRecord []
           "app-staging" 0%nat).
  - reflexivity.
  - reflexivity.
  - reflexivity.
  - discriminate.
Defined.

(** X21.  On a service where a created stream shows up in the next
    listing, the token lookup retries at most once: the second pass
    returns, with a token or with an error, whatever the groups and
    streams of the service. *)
Theorem X21_one_retry_when_created_stream_is_listed :
  forall (fuel : nat) (msg : CloudwatchMessage) (s : Fixtures.logs),
    exists r s',
      Uploader.getSequenceToken (svc := Fixtures.memory)
        (Datatypes.S (Datatypes.S fuel)) msg s
      = Some (r, s').
Proof. intros fuel msg s. apply getSequenceToken_memory_returns. Qed.
